(** * karakeep-mcp-shim: the response-normalisation engine, the route
      handler and the start-up, embedded from [parser.js], [router.js],
      [health.js], [openapi.js] and [server.js].

    The development has five layers.

    - [JS]: the part of the JavaScript runtime the sources rely on: strings,
      decoded JSON values, own properties of plain objects, [String(...)],
      [JSON.parse] and the string case of [JSON.stringify].
    - [Parser]: the functions of parser.js, one definition per source
      function, same names.
    - [Router]: the pure helpers of router.js, the per-call handler, with
      the upstream call and the clock given as explicit inputs, and the
      registration of the routes.
    - [Health]: the readiness flag of health.js and its handler.
    - [OpenAPI]: the loading of the API description in openapi.js, with the
      module variables threaded as a state and the outcomes of the successive
      upstream calls given as a list, and the start-up of server.js.

    Modelling conventions.

    - A JavaScript string is a [string]; a character stands for the UTF-16
      code unit of the same number, so the model covers text whose code units
      are below 256.
    - A JSON number is carried as the decimal value of its literal,
      [mantissa * 10 ^ exponent], normalised.  The sources never compute with
      numbers: they only test them for truthiness, use them as map keys and
      print them.  Rounding to binary64 is not modelled.
    - Values are decoded JSON trees: no two positions of a tree share an
      object.  The objects the sources build and mutate carry their
      prototype, which [Object.assign] can change through [__proto__].
    - Code that can raise returns a [completion]. *)

From Stdlib Require Import String Ascii List ZArith NArith Bool Lia DecimalString Permutation Sorted.
From Stdlib Require DecimalNat DecimalFacts.
Import ListNotations.

Local Open Scope string_scope.
Local Open Scope list_scope.

Set Warnings "-register-all".

Module JS.

(** ** Characters and strings *)

Definition code (c : ascii) : N := N_of_ascii c.

(** [\s] in a regular expression, and the characters [trim()] removes:
    TAB, LF, VT, FF, CR, SPACE and NBSP (the members below 256). *)
Definition is_space (c : ascii) : bool :=
  let n := code c in
  (((9 <=? n) && (n <=? 13)) || (n =? 32) || (n =? 160))%N.

Definition is_digit (c : ascii) : bool :=
  let n := code c in ((48 <=? n) && (n <=? 57))%N.

Definition is_upper (c : ascii) : bool :=
  let n := code c in ((65 <=? n) && (n <=? 90))%N.

Definition is_lower (c : ascii) : bool :=
  let n := code c in ((97 <=? n) && (n <=? 122))%N.

(** [\w] is [A-Za-z0-9_]. *)
Definition is_word (c : ascii) : bool :=
  is_upper c || is_lower c || is_digit c || (code c =? 95)%N.

(** [.] does not match a line terminator. *)
Definition is_line_terminator (c : ascii) : bool :=
  ((code c =? 10) || (code c =? 13))%N.

(** Case folding of the [i] flag: only ASCII letters fold onto ASCII
    letters. *)
Definition to_lower (c : ascii) : ascii :=
  if is_upper c then ascii_of_N (code c + 32) else c.

Fixpoint lowercase (s : string) : string :=
  match s with
  | EmptyString => EmptyString
  | String c r => String (to_lower c) (lowercase r)
  end.

Fixpoint drop_while (p : ascii -> bool) (s : string) : string :=
  match s with
  | EmptyString => EmptyString
  | String c r => if p c then drop_while p r else s
  end.

Fixpoint drop_while_end (p : ascii -> bool) (s : string) : string :=
  match s with
  | EmptyString => EmptyString
  | String c r =>
      match drop_while_end p r with
      | EmptyString => if p c then EmptyString else String c EmptyString
      | r' => String c r'
      end
  end.

Definition trim_start (s : string) : string := drop_while is_space s.

Definition trim_end (s : string) : string := drop_while_end is_space s.

(** [s.trim()] *)
Definition trim (s : string) : string := trim_end (trim_start s).

Definition is_empty (s : string) : bool :=
  match s with EmptyString => true | _ => false end.

Definition nat_to_string (n : nat) : string :=
  NilZero.string_of_uint (Nat.to_uint n).

Definition N_to_string (n : N) : string :=
  NilZero.string_of_uint (N.to_uint n).

Fixpoint zeros (n : nat) : string :=
  match n with
  | O => EmptyString
  | S k => String "0" (zeros k)
  end.

Fixpoint take (n : nat) (s : string) : string :=
  match n, s with
  | S k, String c r => String c (take k r)
  | _, _ => EmptyString
  end.

Fixpoint drop (n : nat) (s : string) : string :=
  match n, s with
  | S k, String _ r => drop k r
  | _, _ => s
  end.

(** [starts_with p s]: [s] begins with [p]; the rest of [s] is returned. *)
Fixpoint strip_prefix (p s : string) : option string :=
  match p, s with
  | EmptyString, _ => Some s
  | String a p', String b s' => if Ascii.eqb a b then strip_prefix p' s' else None
  | _, _ => None
  end.

Fixpoint contains (needle s : string) : bool :=
  match strip_prefix needle s with
  | Some _ => true
  | None =>
      match s with
      | EmptyString => false
      | String _ r => contains needle r
      end
  end.

(** ** Values *)

(** The decimal value [mantissa * 10 ^ exponent] of a number literal.  In
    normal form the mantissa has no trailing zero, and zero is [Num 0 0]. *)
Record number : Type := Num { mantissa : Z; exponent : Z }.

Inductive value : Type :=
| JUndefined
| JNull
| JBool (b : bool)
| JNum (n : number)
| JStr (s : string)
| JArr (elems : list value)
| JObj (props : list (string * value)).

(** The own enumerable string-keyed properties of a plain object, in
    enumeration order. *)
Definition props : Type := list (string * value).

Inductive jstype : Type := TUndefined | TObject | TBoolean | TNumber | TString.

Definition typeof (v : value) : jstype :=
  match v with
  | JUndefined => TUndefined
  | JNull => TObject
  | JBool _ => TBoolean
  | JNum _ => TNumber
  | JStr _ => TString
  | JArr _ => TObject
  | JObj _ => TObject
  end.

Definition jstype_eqb (a b : jstype) : bool :=
  match a, b with
  | TUndefined, TUndefined | TObject, TObject | TBoolean, TBoolean
  | TNumber, TNumber | TString, TString => true
  | _, _ => false
  end.

(** [v == null] *)
Definition is_nullish (v : value) : bool :=
  match v with JUndefined | JNull => true | _ => false end.

(** ToBoolean: [if (v)], [!v], [v && ...], [v || ...], [Boolean(v)]. *)
Definition truthy (v : value) : bool :=
  match v with
  | JUndefined | JNull => false
  | JBool b => b
  | JNum n => negb (mantissa n =? 0)%Z
  | JStr s => negb (is_empty s)
  | JArr _ | JObj _ => true
  end.

(** [v && typeof v === "object"]: a mapping or a sequence. *)
Definition is_container (v : value) : bool :=
  match v with JArr _ | JObj _ => true | _ => false end.


Definition number_eqb (a b : number) : bool :=
  ((mantissa a =? mantissa b) && (exponent a =? exponent b))%Z.

(** ** Own properties *)

Fixpoint get_own (o : props) (k : string) : option value :=
  match o with
  | [] => None
  | (k', v) :: r => if String.eqb k' k then Some v else get_own r k
  end.

Definition has_own (o : props) (k : string) : bool :=
  match get_own o k with Some _ => true | None => false end.

Fixpoint digits_value (s : string) (acc : N) : option N :=
  match s with
  | EmptyString => Some acc
  | String c r =>
      if is_digit c then digits_value r (acc * 10 + (code c - 48))%N else None
  end.

(** An array index is a canonical numeric string below [2^32 - 1].  Such keys
    are enumerated first, in ascending order; the other keys follow in
    creation order. *)
Definition array_index (k : string) : option N :=
  match k with
  | EmptyString => None
  | _ =>
      match digits_value k 0 with
      | Some n =>
          if (String.eqb (N_to_string n) k && (n <? 4294967295)%N)%bool
          then Some n else None
      | None => None
      end
  end.

Fixpoint replace_own (o : props) (k : string) (v : value) : props :=
  match o with
  | [] => []
  | (k', v') :: r =>
      if String.eqb k' k then (k', v) :: r else (k', v') :: replace_own r k v
  end.

Fixpoint insert_index (n : N) (k : string) (v : value) (o : props) : props :=
  match o with
  | [] => [(k, v)]
  | (k', v') :: r =>
      match array_index k' with
      | Some n' =>
          if (n <? n')%N then (k, v) :: o else (k', v') :: insert_index n k v r
      | None => (k, v) :: o
      end
  end.

(** CreateDataProperty on a plain object: an existing key keeps its place and
    takes the new value; a new key is appended (an array index is placed
    among the indices). *)
Definition define_prop (o : props) (k : string) (v : value) : props :=
  if has_own o k then replace_own o k v
  else match array_index k with
       | Some n => insert_index n k v o
       | None => o ++ [(k, v)]
       end.

(** The prototype of an object the sources build and then mutate: the
    default one, [null], or a decoded object or array. *)
Inductive prototype : Type :=
| ObjectPrototype
| NullPrototype
| ValuePrototype (v : value).

(** An object the sources build: its own properties and its prototype. *)
Record object : Type := Obj { own : props; proto : prototype }.

(** An object literal. *)
Definition fresh (o : props) : object := {| own := o; proto := ObjectPrototype |}.

(** Whether a lookup of [__proto__] that starts at the prototype ends on the
    accessor of [Object.prototype]: it does unless the chain is cut by [null]
    or a decoded object on the way has an own data property of that name. *)
Definition inherits_proto_accessor (p : prototype) : bool :=
  match p with
  | ObjectPrototype => true
  | NullPrototype => false
  | ValuePrototype (JObj o) => negb (has_own o "__proto__")
  | ValuePrototype _ => true
  end.

(** Set, as in [o[k] = v] and in [Object.assign].  The key [__proto__], when
    it is not an own property and the accessor is inherited, runs the setter:
    an object or [null] becomes the prototype, any other value is ignored,
    and no property is created.  Every other inherited property the sources
    can meet is a writable data property, so the own property is defined. *)
Definition set_prop (o : object) (k : string) (v : value) : object :=
  if (String.eqb k "__proto__" && negb (has_own (own o) k)
      && inherits_proto_accessor (proto o))%bool then
    match v with
    | JNull => {| own := own o; proto := NullPrototype |}
    | JObj _ | JArr _ => {| own := own o; proto := ValuePrototype v |}
    | _ => o
    end
  else {| own := define_prop (own o) k v; proto := proto o |}.

Fixpoint index_entries (i : nat) (l : list value) : props :=
  match l with
  | [] => []
  | x :: r => (nat_to_string i, x) :: index_entries (S i) r
  end.

(** The own enumerable properties a spread or [Object.assign] copies. *)
Definition own_enumerable (v : value) : props :=
  match v with
  | JObj o => o
  | JArr l => index_entries 0 l
  | _ => []
  end.

(** [Object.prototype.hasOwnProperty.call(v, k)] for a key that is not an
    array index nor [length]. *)
Definition hasOwnProperty (v : value) (k : string) : bool :=
  match v with
  | JObj o => has_own o k
  | _ => false
  end.

(** [v.k] and [v?.k] for a name [k] that no built-in prototype defines (every
    name the sources read is such a name): the own property or [undefined]. *)
Definition get (v : value) (k : string) : value :=
  match v with
  | JObj o => match get_own o k with Some x => x | None => JUndefined end
  | _ => JUndefined
  end.

(** The keys of an object, as a decoded JSON object has them: pairwise
    distinct. *)
Definition distinct_keys (o : props) : Prop := NoDup (map fst o).

(** CreateDataProperty for each entry, in order. *)
Definition define_all (target entries : props) : props :=
  fold_left (fun o kv => define_prop o (fst kv) (snd kv)) entries target.

(** [{ ...target, ...src }]: CopyDataProperties onto a fresh object. *)
Definition spread_into (target : props) (src : value) : props :=
  define_all target (own_enumerable src).

(** [Object.assign(target, src)] *)
Definition Object_assign (target : object) (src : value) : object :=
  fold_left (fun o kv => set_prop o (fst kv) (snd kv)) (own_enumerable src) target.

(** ** Completions *)

Record js_error : Type := Err { err_name : string; err_message : string }.

Inductive completion (A : Type) : Type :=
| Normal (a : A)
| Throw (e : js_error).

Arguments Normal {A} a.
Arguments Throw {A} e.

Definition bind {A B : Type} (c : completion A) (k : A -> completion B) : completion B :=
  match c with
  | Normal a => k a
  | Throw e => Throw e
  end.

Notation "x <- c ;; k" := (bind c (fun x => k))
  (at level 61, c at next level, right associativity).

Definition TypeError (msg : string) : js_error := Err "TypeError" msg.

(** ** String(v) *)

Definition digits_of (m : Z) : string := N_to_string (Z.abs_N m).

Definition exponent_part (n : Z) : string :=
  ("e" ++ (if (0 <=? n - 1)%Z then "+" else "-") ++ digits_of (n - 1))%string.

(** Number::toString on the decimal value [s * 10 ^ (n - k)], where [s] is the
    digit string of the mantissa and [k] its length. *)
Definition number_to_string (x : number) : string :=
  let m := mantissa x in
  if (m =? 0)%Z then "0"
  else
    let s := digits_of m in
    let k := Z.of_nat (String.length s) in
    let n := (k + exponent x)%Z in
    let body :=
      (if ((k <=? n) && (n <=? 21))%Z then s ++ zeros (Z.to_nat (n - k))
       else if ((0 <? n) && (n <=? 21))%Z then
         take (Z.to_nat n) s ++ "." ++ drop (Z.to_nat n) s
       else if ((-6 <? n) && (n <=? 0))%Z then
         "0." ++ zeros (Z.to_nat (- n)) ++ s
       else if (k =? 1)%Z then s ++ exponent_part n
       else take 1 s ++ "." ++ drop 1 s ++ exponent_part n)%string in
    if (m <? 0)%Z then ("-" ++ body)%string else body.

(** ToString.  A plain object prints through [Object.prototype.toString]
    unless an own [toString] property hides it: a decoded JSON value is never
    callable, so the conversion then finds no method that returns a primitive
    and raises a TypeError.  An array prints through [join]. *)
Fixpoint ToString (v : value) : completion string :=
  match v with
  | JUndefined => Normal "undefined"
  | JNull => Normal "null"
  | JBool b => Normal (if b then "true" else "false")
  | JNum n => Normal (number_to_string n)
  | JStr s => Normal s
  | JObj o =>
      if has_own o "toString"
      then Throw (TypeError "Cannot convert object to primitive value")
      else Normal "[object Object]"
  | JArr l =>
      (fix join (l : list value) : completion string :=
         match l with
         | [] => Normal ""
         | x :: r =>
             a <- (match x with
                   | JUndefined | JNull => Normal ""
                   | _ => ToString x
                   end) ;;
             match r with
             | [] => Normal a
             | _ => b <- join r ;; Normal (a ++ "," ++ b)%string
             end
         end) l
  end.

(** ** JSON.parse *)

(** JSON white space: SPACE, TAB, LF, CR. *)
Definition is_json_ws (c : ascii) : bool :=
  let n := code c in ((n =? 32) || (n =? 9) || (n =? 10) || (n =? 13))%N.

Fixpoint skip_ws (s : string) : string :=
  match s with
  | EmptyString => EmptyString
  | String c r => if is_json_ws c then skip_ws r else s
  end.

Definition hex_digit (c : ascii) : option N :=
  let n := code c in
  if is_digit c then Some (n - 48)%N
  else if ((97 <=? n) && (n <=? 102))%N then Some (n - 87)%N
  else if ((65 <=? n) && (n <=? 70))%N then Some (n - 55)%N
  else None.

(** The code unit of [\uXXXX]; a unit of 256 or more is outside the modelled
    alphabet and the text is not accepted. *)
Definition hex4 (a b c d : ascii) : option ascii :=
  match hex_digit a, hex_digit b, hex_digit c, hex_digit d with
  | Some x, Some y, Some z, Some w =>
      let n := (((x * 16 + y) * 16 + z) * 16 + w)%N in
      if (n <? 256)%N then Some (ascii_of_N n) else None
  | _, _, _, _ => None
  end.

Definition simple_escape (c : ascii) : option ascii :=
  let n := code c in
  if (n =? 34)%N then Some c                      (* quote *)
  else if (n =? 92)%N then Some c                 (* backslash *)
  else if (n =? 47)%N then Some c                 (* slash *)
  else if (n =? 98)%N then Some (ascii_of_N 8)    (* b *)
  else if (n =? 102)%N then Some (ascii_of_N 12)  (* f *)
  else if (n =? 110)%N then Some (ascii_of_N 10)  (* n *)
  else if (n =? 114)%N then Some (ascii_of_N 13)  (* r *)
  else if (n =? 116)%N then Some (ascii_of_N 9)   (* t *)
  else None.

Definition cons_char (c : ascii) (r : option (string * string)) : option (string * string) :=
  match r with
  | Some (s, rest) => Some (String c s, rest)
  | None => None
  end.

(** The characters of a string literal after its opening quote, up to and
    including the closing quote. *)
Fixpoint parse_string_body (s : string) : option (string * string) :=
  match s with
  | EmptyString => None
  | String c r =>
      if (code c =? 34)%N then Some (EmptyString, r)
      else if (code c =? 92)%N then
        match r with
        | String e r1 =>
            match simple_escape e with
            | Some ch => cons_char ch (parse_string_body r1)
            | None =>
                if (code e =? 117)%N then
                  match r1 with
                  | String h1 (String h2 (String h3 (String h4 r2))) =>
                      match hex4 h1 h2 h3 h4 with
                      | Some ch => cons_char ch (parse_string_body r2)
                      | None => None
                      end
                  | _ => None
                  end
                else None
            end
        | EmptyString => None
        end
      else if (code c <? 32)%N then None
      else cons_char c (parse_string_body r)
  end.

Fixpoint span_digits (s : string) : string * string :=
  match s with
  | String c r =>
      if is_digit c then let '(d, rest) := span_digits r in (String c d, rest)
      else (EmptyString, s)
  | EmptyString => (EmptyString, EmptyString)
  end.

Fixpoint digits_to_Z (s : string) (acc : Z) : Z :=
  match s with
  | EmptyString => acc
  | String c r => digits_to_Z r (acc * 10 + Z.of_N (code c - 48))%Z
  end.

Fixpoint strip_zeros (fuel : nat) (m e : Z) : number :=
  match fuel with
  | O => Num m e
  | S f => if (m mod 10 =? 0)%Z then strip_zeros f (m / 10) (e + 1) else Num m e
  end.

Definition normalize_number (m e : Z) : number :=
  if (m =? 0)%Z then Num 0 0 else strip_zeros (Z.to_nat (Z.log2 (Z.abs m))) m e.

(** A number literal: [-? int frac? exp?], with [int] either [0] or a digit
    string that does not start with [0]. *)
Definition parse_number (s : string) : option (value * string) :=
  let '(neg, s1) :=
    match s with
    | String c r => if (code c =? 45)%N then (true, r) else (false, s)
    | EmptyString => (false, s)
    end in
  let '(int, s2) := span_digits s1 in
  match int with
  | EmptyString => None
  | String d more =>
      if ((code d =? 48)%N && negb (is_empty more))%bool then None
      else
        let frac_rest :=
          match s2 with
          | String c r =>
              if (code c =? 46)%N then
                let '(fr, s3) := span_digits r in
                if is_empty fr then None else Some (fr, s3)
              else Some (EmptyString, s2)
          | EmptyString => Some (EmptyString, s2)
          end in
        match frac_rest with
        | None => None
        | Some (fr, s3) =>
            let exp_rest :=
              match s3 with
              | String c r =>
                  if ((code c =? 101) || (code c =? 69))%N then
                    let '(eneg, r1) :=
                      match r with
                      | String g r' =>
                          if (code g =? 45)%N then (true, r')
                          else if (code g =? 43)%N then (false, r')
                          else (false, r)
                      | EmptyString => (false, r)
                      end in
                    let '(ed, s4) := span_digits r1 in
                    if is_empty ed then None
                    else Some ((if eneg then - digits_to_Z ed 0 else digits_to_Z ed 0)%Z, s4)
                  else Some (0%Z, s3)
              | EmptyString => Some (0%Z, s3)
              end in
            match exp_rest with
            | None => None
            | Some (ex, s4) =>
                let m := digits_to_Z (int ++ fr)%string 0 in
                let e := (ex - Z.of_nat (String.length fr))%Z in
                Some (JNum (normalize_number (if neg then - m else m)%Z e), s4)
            end
        end
  end.

Section Containers.

(** The parser of the nested values. *)
Variable parse_inner : string -> option (value * string).

(** The elements of an array after the first one was found to be present;
    [n] bounds the number of elements by the length of the text. *)
Fixpoint parse_elements (n : nat) (s : string) (acc : list value) : option (value * string) :=
  match n with
  | O => None
  | S n' =>
      match parse_inner s with
      | None => None
      | Some (v, r) =>
          match skip_ws r with
          | String c r' =>
              if (code c =? 44)%N then parse_elements n' (skip_ws r') (acc ++ [v])
              else if (code c =? 93)%N then Some (JArr (acc ++ [v]), r')
              else None
          | EmptyString => None
          end
      end
  end.

(** The members of an object.  A repeated key keeps its first place and
    takes the last value. *)
Fixpoint parse_members (n : nat) (s : string) (acc : props) : option (value * string) :=
  match n with
  | O => None
  | S n' =>
      match s with
      | String q r0 =>
          if (code q =? 34)%N then
            match parse_string_body r0 with
            | None => None
            | Some (k, r1) =>
                match skip_ws r1 with
                | String c r2 =>
                    if (code c =? 58)%N then
                      match parse_inner (skip_ws r2) with
                      | None => None
                      | Some (v, r3) =>
                          match skip_ws r3 with
                          | String d r4 =>
                              if (code d =? 44)%N
                              then parse_members n' (skip_ws r4) (define_prop acc k v)
                              else if (code d =? 125)%N
                              then Some (JObj (define_prop acc k v), r4)
                              else None
                          | EmptyString => None
                          end
                      end
                    else None
                | EmptyString => None
                end
            end
          else None
      | EmptyString => None
      end
  end.

End Containers.

(** A JSON value at the head of [s] (no leading white space); [fuel] bounds
    the nesting depth. *)
Fixpoint parse_value (fuel : nat) (s : string) : option (value * string) :=
  match fuel with
  | O => None
  | S f =>
      match s with
      | EmptyString => None
      | String c r =>
          if (code c =? 123)%N then           (* { *)
            match skip_ws r with
            | String d r' =>
                if (code d =? 125)%N then Some (JObj [], r')
                else parse_members (parse_value f) (String.length r) (skip_ws r) []
            | EmptyString => None
            end
          else if (code c =? 91)%N then       (* [ *)
            match skip_ws r with
            | String d r' =>
                if (code d =? 93)%N then Some (JArr [], r')
                else parse_elements (parse_value f) (String.length r) (skip_ws r) []
            | EmptyString => None
            end
          else if (code c =? 34)%N then       (* string *)
            match parse_string_body r with
            | Some (str, r') => Some (JStr str, r')
            | None => None
            end
          else
            match strip_prefix "true" s, strip_prefix "false" s, strip_prefix "null" s with
            | Some r', _, _ => Some (JBool true, r')
            | _, Some r', _ => Some (JBool false, r')
            | _, _, Some r' => Some (JNull, r')
            | _, _, _ => parse_number s
            end
      end
  end.

(** [JSON.parse(text)]; [None] stands for the SyntaxError it raises. *)
Definition JSON_parse (text : string) : option value :=
  match parse_value (S (String.length text)) (skip_ws text) with
  | Some (v, r) => if is_empty (skip_ws r) then Some v else None
  | None => None
  end.

(** ** JSON.stringify on a string *)

Definition hex_char (n : N) : ascii :=
  if (n <? 10)%N then ascii_of_N (48 + n) else ascii_of_N (87 + n).

(** QuoteJSONString, one code unit: the two-character escapes, [\u00xx] for
    the other control characters, the unit itself otherwise. *)
Definition escape_char (c : ascii) : string :=
  let n := code c in
  if (n =? 8)%N then "\b"
  else if (n =? 9)%N then "\t"
  else if (n =? 10)%N then "\n"
  else if (n =? 12)%N then "\f"
  else if (n =? 13)%N then "\r"
  else if (n =? 34)%N then String "\" (String c EmptyString)
  else if (n =? 92)%N then "\\"
  else if (n <? 32)%N then
    ("\u00" ++ String (hex_char (n / 16)) (String (hex_char (n mod 16)) EmptyString))%string
  else String c EmptyString.

Fixpoint escape_string (s : string) : string :=
  match s with
  | EmptyString => EmptyString
  | String c r => (escape_char c ++ escape_string r)%string
  end.

Definition quote : ascii := ascii_of_N 34.

(** [JSON.stringify(s)] for a string [s]. *)
Definition JSON_stringify_string (s : string) : string :=
  String quote (escape_string s ++ String quote EmptyString)%string.

(** ** Other built-ins *)

(** [s.toLowerCase()], one code unit: the ASCII capitals and the Latin-1
    capitals (all of 192 to 222 but the multiplication sign). *)
Definition lower_unit (c : ascii) : ascii :=
  let n := code c in
  if (is_upper c || ((192 <=? n) && (n <=? 222) && negb (n =? 215))%N)%bool
  then ascii_of_N (n + 32) else c.

(** [s.toLowerCase()] *)
Fixpoint toLowerCase (s : string) : string :=
  match s with
  | EmptyString => EmptyString
  | String c r => String (lower_unit c) (toLowerCase r)
  end.

Fixpoint indices (i n : nat) : list string :=
  match n with
  | O => []
  | S k => nat_to_string i :: indices (S i) k
  end.

(** [Object.keys(v)]: a TypeError on [undefined] and [null], the indices of
    a string, the own keys of an object or array, nothing for a number or a
    boolean. *)
Definition Object_keys (v : value) : completion (list string) :=
  match v with
  | JUndefined | JNull => Throw (TypeError "Cannot convert undefined or null to object")
  | JStr s => Normal (indices 0 (String.length s))
  | _ => Normal (map fst (own_enumerable v))
  end.

End JS.

Module Parser.
Import JS.

(** ** Basic JSON helpers *)

(** [tryParseJSON(text)]: the parsed value, or [null] on failure. *)
Definition tryParseJSON (text : value) : value :=
  if is_nullish text then JNull
  else if negb (jstype_eqb (typeof text) TString) then JNull
  else match text with
       | JStr s =>
           match JSON_parse s with
           | Some v => v
           | None => JNull        (* catch *)
           end
       | _ => JNull
       end.

Record unwrapped : Type := Unwrapped { parsed : value; text : string }.

(** The loop of [unwrapDeepJSONString], with [n = maxDepth - i] iterations
    left.  [out] is a string at every call site and stays one.  In the
    branch that returns, [parsed] is not a string, so the [text] field is
    [out]. *)
Fixpoint unwrap_loop (n : nat) (out : string) : unwrapped :=
  match n with
  | O => {| parsed := JNull; text := out |}
  | S n' =>
      let parsed := tryParseJSON (JStr out) in
      match parsed with
      | JStr s => unwrap_loop n' s
      | _ => {| parsed := parsed; text := out |}
      end
  end.

Definition maxDepth_default : nat := 5.

(** [unwrapDeepJSONString(raw, maxDepth = 5)] *)
Definition unwrapDeepJSONString (raw : string) : unwrapped :=
  unwrap_loop maxDepth_default raw.

(** ** Sanitizer *)

Fixpoint strip_prefix_ci (p s : string) : option string :=
  match p, s with
  | EmptyString, _ => Some s
  | String a p', String b s' =>
      if Ascii.eqb (to_lower a) (to_lower b) then strip_prefix_ci p' s' else None
  | _, _ => None
  end.

(** The text after the first occurrence of [needle], letter case ignored. *)
Fixpoint after_first_ci (needle s : string) : option string :=
  match strip_prefix_ci needle s with
  | Some r => Some r
  | None =>
      match s with
      | EmptyString => None
      | String _ r => after_first_ci needle r
      end
  end.

Fixpoint after_char (c : ascii) (s : string) : option string :=
  match s with
  | EmptyString => None
  | String a r => if Ascii.eqb a c then Some r else after_char c r
  end.

(** A match of [/<details[^>]*>[\s\S]*?<\/details>/i] at the head of [s]: the
    opening tag runs to the first [>], the lazy body to the first closing
    tag.  The text after the match is returned. *)
Definition match_details (s : string) : option string :=
  match strip_prefix_ci "<details" s with
  | None => None
  | Some r =>
      match after_char ">" r with
      | None => None
      | Some body => after_first_ci "</details>" body
      end
  end.

(** The global replace: matches are removed from left to right. *)
Fixpoint strip_loop (fuel : nat) (s : string) : string :=
  match fuel with
  | O => s
  | S f =>
      match s with
      | EmptyString => EmptyString
      | String c r =>
          match match_details s with
          | Some rest => strip_loop f rest
          | None => String c (strip_loop f r)
          end
      end
  end.

(** [stripDebugBlocks(html)] on a string. *)
Definition stripDebugBlocks (html : string) : string :=
  strip_loop (String.length html) html.

(** ** Robust tool response extraction *)

(** [v && typeof v === "object"] *)
Definition truthy_object (v : value) : bool :=
  truthy v && jstype_eqb (typeof v) TObject.

Fixpoint through_last (c : ascii) (s : string) : option string :=
  match s with
  | EmptyString => None
  | String a r =>
      match through_last c r with
      | Some p => Some (String a p)
      | None => if Ascii.eqb a c then Some (String a EmptyString) else None
      end
  end.

(** [text.match(/o[\s\S]*c/)]: the greedy match runs from the first [o] to the
    last [c] that follows it. *)
Fixpoint match_span (o c : ascii) (s : string) : option string :=
  match s with
  | EmptyString => None
  | String a r =>
      if Ascii.eqb a o then
        match through_last c r with
        | Some p => Some (String a p)
        | None => None
        end
      else match_span o c r
  end.

(** [extractFirstJSONObjectFromText(text)] *)
Definition extractFirstJSONObjectFromText (text : value) : value :=
  match text with
  | JStr t =>
      let direct := tryParseJSON text in
      if truthy_object direct then direct
      else
        let objMatch :=
          match match_span "{" "}" t with
          | Some m => Some m
          | None => match_span "[" "]" t
          end in
        match objMatch with
        | Some m =>
            let maybe := tryParseJSON (JStr m) in
            if truthy_object maybe then maybe else JNull
        | None => JNull
        end
  | _ => JNull
  end.

(** The string branch shared by [result] and by each document: deep unwrap,
    then rescue from the text.  [None] when the branch falls through. *)
Definition unwrap_then_rescue (s : string) : option value :=
  let u := unwrapDeepJSONString s in
  if truthy_object (parsed u) then Some (parsed u)
  else
    let rescued := extractFirstJSONObjectFromText (JStr (text u)) in
    if truthy rescued then Some rescued else None.

(** One iteration of the inner loop over [docs]: [Some] is the value the
    function returns from there. *)
Definition try_document (doc : value) : option value :=
  if is_nullish doc then None
  else if jstype_eqb (typeof doc) TObject then Some doc
  else match doc with
       | JStr s => unwrap_then_rescue s
       | _ => None
       end.

(** [Array.isArray(s?.document) ? s.document : (s?.document ? [s.document] : [])] *)
Definition documents_of (s : value) : list value :=
  match get s "document" with
  | JArr l => l
  | d => if truthy d then [d] else []
  end.

Fixpoint first_some {A B : Type} (f : A -> option B) (l : list A) : option B :=
  match l with
  | [] => None
  | x :: r => match f x with Some y => Some y | None => first_some f r end
  end.

Definition scan_sources (sources : list value) : option value :=
  first_some (fun s => first_some try_document (documents_of s)) sources.

(** Step 1 of [parseToolResponse], on [toolResp.result]. *)
Definition try_result (res : value) : completion (option value) :=
  if is_nullish res then Normal None
  else
    str <- ToString res ;;
    if is_empty (trim str) then Normal None
    else match res with
         | JStr s => Normal (unwrap_then_rescue s)
         | _ => if jstype_eqb (typeof res) TObject then Normal (Some res) else Normal None
         end.

(** [Array.isArray(toolResp.sources) ? toolResp.sources : []] *)
Definition sources_of (toolResp : value) : list value :=
  match get toolResp "sources" with
  | JArr l => l
  | _ => []
  end.

(** [parseToolResponse(toolResp)] *)
Definition parseToolResponse (toolResp : value) : completion value :=
  if is_nullish toolResp then Normal JNull
  else if jstype_eqb (typeof toolResp) TString
  then Normal (extractFirstJSONObjectFromText toolResp)
  else
    r <- try_result (get toolResp "result") ;;
    match r with
    | Some v => Normal v
    | None =>
        match scan_sources (sources_of toolResp) with
        | Some v => Normal v
        | None =>
            str <- ToString toolResp ;;
            let rescued := extractFirstJSONObjectFromText (JStr str) in
            if truthy rescued then Normal rescued else Normal JNull
        end
    end.

(** ** Karakeep payload normalization *)

(** Key equality of a [Map] (SameValueZero).  Objects are compared by
    identity, and the identifiers of two rows sit at two positions of the
    decoded tree, so they are never the same object. *)
Definition same_value_zero (a b : value) : bool :=
  match a, b with
  | JUndefined, JUndefined => true
  | JNull, JNull => true
  | JBool x, JBool y => Bool.eqb x y
  | JNum x, JNum y => number_eqb x y
  | JStr x, JStr y => String.eqb x y
  | _, _ => false
  end.

(** A [Map] from identifiers to records, in insertion order. *)
Definition id_map : Type := list (value * props).

Fixpoint map_get (m : id_map) (k : value) : option props :=
  match m with
  | [] => None
  | (k', v) :: r => if same_value_zero k' k then Some v else map_get r k
  end.

Fixpoint map_set (m : id_map) (k : value) (v : props) : id_map :=
  match m with
  | [] => [(k, v)]
  | (k', v') :: r =>
      if same_value_zero k' k then (k', v) :: r else (k', v') :: map_set r k v
  end.

Definition map_values (m : id_map) : list props := map snd m.

(** [if (current) coalesced.push(current)].  Only the own properties of a
    pushed record are kept: the second loop reads [Bookmark_ID], which every
    record owns, and spreads the record. *)
Definition push_current (coalesced : list props) (current : option object) : list props :=
  match current with
  | Some c => coalesced ++ [own c]
  | None => coalesced
  end.

(** The first loop: rows that carry [Bookmark_ID] start a record, the other
    object rows are folded into the current one. *)
Fixpoint coalesce_rows (rows : list value) (coalesced : list props)
         (current : option object) : list props :=
  match rows with
  | [] => push_current coalesced current
  | row :: rest =>
      if truthy_object row && hasOwnProperty row "Bookmark_ID" then
        coalesce_rows rest (push_current coalesced current)
                      (Some (fresh (spread_into [] row)))
      else if truthy_object row then
        match current with
        | Some c => coalesce_rows rest coalesced (Some (Object_assign c row))
        | None => coalesce_rows rest coalesced None
        end
      else coalesce_rows rest coalesced current
  end.

(** [`tmp_${n}`] *)
Definition placeholder (n : nat) : value := JStr ("tmp_" ++ nat_to_string n).

(** [it.Bookmark_ID || `tmp_${byId.size}`] *)
Definition record_key (it : props) (byId : id_map) : value :=
  let bid := get (JObj it) "Bookmark_ID" in
  if truthy bid then bid else placeholder (List.length byId).

(** The second loop: de-dupe by identifier, merging fields. *)
Fixpoint dedupe (coalesced : list props) (byId : id_map) : id_map :=
  match coalesced with
  | [] => byId
  | it :: rest =>
      let id := record_key it byId in
      let existing := match map_get byId id with Some e => e | None => [] end in
      dedupe rest (map_set byId id (spread_into (spread_into [] (JObj existing)) (JObj it)))
  end.

(** [t => typeof t === "string" && t.trim() !== ""] *)
Definition is_token (t : value) : bool :=
  match t with
  | JStr s => negb (is_empty (trim s))
  | _ => false
  end.

(** [tokenCandidates.find(...) || null] *)
Definition find_token (candidates : list value) : value :=
  match find is_token candidates with
  | Some t => if truthy t then t else JNull
  | None => JNull
  end.

Definition page_result (items : list props) (nextCursor : value) (hasMore : bool) : value :=
  JObj [("items", JArr (map JObj items));
        ("nextCursor", nextCursor);
        ("hasMore", JBool hasMore)].

(** [normalizeKarakeepPayload(raw)] *)
Definition normalizeKarakeepPayload (raw : value) : value :=
  if negb (truthy raw) || negb (jstype_eqb (typeof raw) TObject) then
    page_result [] JNull false
  else
    let rows := match get raw "items" with JArr l => l | _ => [] end in
    let coalesced := coalesce_rows rows [] None in
    let byId := dedupe coalesced [] in
    let tokenCandidates :=
      [get raw "nextCursor"; get raw "next_cursor"; get raw "nextPageToken";
       get raw "next_page_token"; get raw "cursor"] in
    let nextCursor := find_token tokenCandidates in
    let hasMore :=
      match get raw "hasMore" with
      | JBool b => b
      | _ =>
          match get raw "has_more" with
          | JBool b => b
          | _ =>
              (* Boolean(nextCursor && String(nextCursor).trim() !== "") *)
              match nextCursor with
              | JStr s => truthy nextCursor && negb (is_empty (trim s))
              | _ => false
              end
          end
      end in
    page_result (map_values byId) nextCursor hasMore.

(** ** Legacy KV-block parsing *)

Definition LF : ascii := ascii_of_N 10.
Definition CR : ascii := ascii_of_N 13.

Definition cons_head (c : ascii) (l : list string) : list string :=
  match l with
  | h :: t => String c h :: t
  | [] => [String c EmptyString]
  end.

(** [s.split(/\r?\n/)] *)
Fixpoint split_lines (s : string) : list string :=
  match s with
  | EmptyString => [EmptyString]
  | String c r =>
      if Ascii.eqb c LF then EmptyString :: split_lines r
      else if Ascii.eqb c CR then
        match r with
        | String d r' =>
            if Ascii.eqb d LF then EmptyString :: split_lines r'
            else cons_head c (split_lines r)
        | EmptyString => cons_head c (split_lines r)
        end
      else cons_head c (split_lines r)
  end.

(** [s.split(c)] *)
Fixpoint split_on (c : ascii) (s : string) : list string :=
  match s with
  | EmptyString => [EmptyString]
  | String a r =>
      if Ascii.eqb a c then EmptyString :: split_on c r
      else cons_head a (split_on c r)
  end.

(** The text before the first colon and the text after it. *)
Fixpoint cut_at_colon (s : string) : option (string * string) :=
  match s with
  | EmptyString => None
  | String c r =>
      if Ascii.eqb c ":" then Some (EmptyString, r)
      else match cut_at_colon r with
           | Some (b, a) => Some (String c b, a)
           | None => None
           end
  end.

Fixpoint take_while (p : ascii -> bool) (s : string) : string :=
  match s with
  | EmptyString => EmptyString
  | String c r => if p c then String c (take_while p r) else EmptyString
  end.

Fixpoint all_but_last (s : string) : string :=
  match s with
  | EmptyString => EmptyString
  | String c EmptyString => EmptyString
  | String c r => String c (all_but_last r)
  end.

Fixpoint last_char (s : string) : string :=
  match s with
  | EmptyString => EmptyString
  | String c EmptyString => s
  | String c r => last_char r
  end.

Fixpoint string_exists (p : ascii -> bool) (s : string) : bool :=
  match s with
  | EmptyString => false
  | String c r => p c || string_exists p r
  end.

Record kv_match : Type := KV { m1 : string; m2 : string; m3 : string }.

(** The match of a line against the pattern: start of line, a group of
    white space ([\s], starred), a group of one or more characters other
    than a colon, a colon, white space, a group of any characters other than
    line terminators, end of text.  No group before the colon can cross a
    colon, so the literal colon is the first colon of the line and the first
    two groups share the text before it: the first takes its leading white
    space, but leaves one character to the second when that text is all
    white space.  After the colon the white space is skipped and the third
    group takes the rest, which must be free of line terminators. *)
Definition match_kv_line (rawLine : string) : option kv_match :=
  match cut_at_colon rawLine with
  | None => None
  | Some (before, after) =>
      if is_empty before then None
      else
        let ws := take_while is_space before in
        let rest := drop_while is_space before in
        let value := drop_while is_space after in
        if string_exists is_line_terminator value then None
        else if is_empty rest
        then Some {| m1 := all_but_last ws; m2 := last_char ws; m3 := value |}
        else Some {| m1 := ws; m2 := rest; m3 := value |}
  end.

(** [/^next\s+cursor$/i.test(key)] *)
Definition is_next_cursor (key : string) : bool :=
  match strip_prefix_ci "next" key with
  | Some (String c r) =>
      is_space c && String.eqb (lowercase (drop_while is_space r)) "cursor"
  | _ => false
  end.

(** [/^tags?$/i.test(key)] *)
Definition is_tags (key : string) : bool :=
  String.eqb (lowercase key) "tag" || String.eqb (lowercase key) "tags".

(** [s.replace(/^c+|c+$/g, "")] for a character [c]. *)
Definition strip_char (c : ascii) (s : string) : string :=
  drop_while_end (Ascii.eqb c) (drop_while (Ascii.eqb c) s).

(** [s.replace(/\s+/g, "_")]; [in_run] tells that the previous character was
    white space. *)
Fixpoint replace_space_runs (in_run : bool) (s : string) : string :=
  match s with
  | EmptyString => EmptyString
  | String c r =>
      if is_space c
      then (if in_run then replace_space_runs true r
            else String "_" (replace_space_runs true r))
      else String c (replace_space_runs false r)
  end.

(** [s.replace(/[^\w]/g, "_")] *)
Fixpoint replace_non_word (s : string) : string :=
  match s with
  | EmptyString => EmptyString
  | String c r => String (if is_word c then c else "_"%char) (replace_non_word r)
  end.

Definition normalize_key (key : string) : string :=
  strip_char "_" (replace_non_word (replace_space_runs false key)).

Record kv_state : Type :=
  KVState { items : list props; current : option object;
            cursor : option string; hasMore : option bool }.

(** [current && Object.keys(current).length > 0] *)
Definition has_keys (current : option object) : bool :=
  match current with
  | Some c => (0 <? List.length (own c))%nat
  | None => false
  end.

(** The closure [flush]. *)
Definition flush (st : kv_state) : kv_state :=
  {| items := if has_keys (current st)
              then items st ++ match current st with Some c => [own c] | None => [] end
              else items st;
     current := None;
     cursor := cursor st;
     hasMore := hasMore st |}.

(** The body of the loop over the lines. *)
Definition kv_step (st : kv_state) (rawLine : string) : kv_state :=
  match match_kv_line rawLine with
  | None => st
  | Some m =>
      let indent := m1 m in
      let key := trim (m2 m) in
      let value := m3 m in
      if is_next_cursor key then
        let cur := trim (strip_char "'" value) in
        {| items := items st; current := current st;
           cursor := Some cur;
           hasMore := Some (negb (String.eqb cur "") && negb (String.eqb cur "0")) |}
      else
        let st1 :=
          if (String.length indent =? 0)%nat && has_keys (current st)
          then flush st else st in
        let cur := match current st1 with Some c => c | None => fresh [] end in
        let normKey := normalize_key key in
        let v :=
          if is_tags key
          then JArr (map JStr (filter (fun t => negb (is_empty t))
                                      (map trim (split_on "," value))))
          else JStr (trim value) in
        {| items := items st1; current := Some (set_prop cur normKey v);
           cursor := cursor st1; hasMore := hasMore st1 |}
  end.

(** [parseKVBlocks(text)] on a string ([String(text)] is then [text]). *)
Definition parseKVBlocks (text : string) : value :=
  let st := flush (fold_left kv_step (split_lines text)
                             {| items := []; current := None;
                                cursor := None; hasMore := None |}) in
  if (0 <? List.length (items st))%nat
     || match cursor st with Some _ => true | None => false end
  then JObj [("items", JArr (map JObj (items st)));
             ("cursor", match cursor st with Some c => JStr c | None => JNull end);
             ("hasMore", JBool (match hasMore st with Some b => b | None => false end))]
  else JNull.

(** ** Single entry point for free-form inputs *)

Definition text_wrapper (t : string) : value := JObj [("text", JStr t)].

(** [String(raw)] for a primitive. *)
Definition primitive_to_string (raw : value) : string :=
  match ToString raw with
  | Normal s => s
  | Throw _ => EmptyString
  end.

(** [input2JSON(raw)] *)
Definition input2JSON (raw : value) : value :=
  if is_nullish raw then text_wrapper ""
  else if jstype_eqb (typeof raw) TObject then raw
  else
    let bodyText := primitive_to_string raw in
    let u := unwrapDeepJSONString bodyText in
    if truthy_object (parsed u) then parsed u
    else
      let kv := parseKVBlocks (text u) in
      if truthy kv then kv else text_wrapper (text u).

End Parser.

Module Router.
Import JS Parser.

(** A match of [/search[_-]?bookmarks/i] at the head of [s]. *)
Definition match_search_bookmarks (s : string) : bool :=
  match strip_prefix_ci "search" s with
  | Some r =>
      let r' :=
        match r with
        | String c t => if Ascii.eqb c "_" || Ascii.eqb c "-" then t else r
        | EmptyString => r
        end in
      match strip_prefix_ci "bookmarks" r' with
      | Some _ => true
      | None => false
      end
  | None => false
  end.

(** [isKaraKeepBookmarksPath(path)]: the pattern matches somewhere. *)
Fixpoint isKaraKeepBookmarksPath (path : string) : bool :=
  match_search_bookmarks path
  || match path with
     | EmptyString => false
     | String _ r => isKaraKeepBookmarksPath r
     end.

(** [normalizeToolPayload(parsed, path)] *)
Definition normalizeToolPayload (parsed : value) (path : string) : value :=
  if truthy_object parsed then
    let maybeItems := match get parsed "items" with JArr l => l | _ => [] end in
    let looksLikeKarakeep :=
      isKaraKeepBookmarksPath path
      || existsb (fun r => truthy_object r && hasOwnProperty r "Bookmark_ID") maybeItems in
    if looksLikeKarakeep then normalizeKarakeepPayload parsed else parsed
  else input2JSON parsed.

(** What awaiting the upstream call delivers to the handler: the status and
    the body text, or the value raised while the request was built, sent or
    read.  An abort by the timer of [withTimeout] is raised by [fetch] as an
    error named [AbortError]. *)
Inductive upstream : Type :=
| Responded (status : Z) (bodyStr : string)
| Rejected (e : js_error).

Record response : Type := Response { status : Z; json : value }.

Definition detail (msg : string) : value := JObj [("detail", JStr msg)].

(** Steps 1 to 3 of the [try] block, on the text of the upstream body. *)
Definition process_body (path bodyStr : string) : completion value :=
  let cleanText := stripDebugBlocks bodyStr in
  parsed <- parseToolResponse (JStr cleanText) ;;
  let parsed := if negb (truthy parsed) then input2JSON (JStr cleanText) else parsed in
  Normal (normalizeToolPayload parsed path).

Definition try_block (path : string) (up : upstream) : completion response :=
  match up with
  | Rejected e => Throw e
  | Responded st bodyStr =>
      payload <- process_body path bodyStr ;;
      Normal {| status := st; json := payload |}
  end.

(** The duration as a template literal prints it. *)
Definition duration_text (startedAt now : Z) : string :=
  number_to_string (normalize_number (now - startedAt) 0).

Definition timeout_message (path : string) (startedAt now : Z) : string :=
  ("Upstream timeout on " ++ path ++ " after " ++ duration_text startedAt now ++ "ms")%string.

(** The handler registered for a path: the [try] block, and the [catch]
    block on what it raised.  [startedAt] and [now] are the two readings of
    the clock. *)
Definition handler (path : string) (startedAt now : Z) (up : upstream) : completion response :=
  match try_block path up with
  | Normal r => Normal r
  | Throw e =>
      if String.eqb (err_name e) "AbortError" then
        Normal {| status := 504; json := detail (timeout_message path startedAt now) |}
      else
        Normal {| status := 502;
                  json := detail ("Shim failed on " ++ path)%string |}
  end.

(** A call [router[lower](path, handler)].  What Express makes of the path
    pattern is outside the model. *)
Record route : Type := Route { method : string; route_path : string }.

(** [["post", "get"].includes(lower)] *)
Definition supported_method (lower : string) : bool :=
  String.eqb lower "post" || String.eqb lower "get".

(** The inner loop of [buildRouterFromOpenAPI], over the keys of a path
    item; [router] holds the registrations made so far, in order. *)
Fixpoint register_methods (path : string) (methods : list string) (router : list route)
  : list route :=
  match methods with
  | [] => router
  | m :: rest =>
      let lower := toLowerCase m in
      if negb (supported_method lower) then register_methods path rest router
      else register_methods path rest (router ++ [{| method := lower; route_path := path |}])
  end.

(** The outer loop, over [Object.entries(spec.paths)]. *)
Fixpoint register_paths (entries : props) (router : list route) : completion (list route) :=
  match entries with
  | [] => Normal router
  | (path, pathObj) :: rest =>
      methods <- Object_keys pathObj ;;
      register_paths rest (register_methods path methods router)
  end.

Definition no_paths_error : js_error :=
  Err "Error" "OpenAPI spec has no 'paths'; cannot build router.".

(** [buildRouterFromOpenAPI(spec)]: the registrations it makes on the router
    it returns, in order. *)
Definition buildRouterFromOpenAPI (spec : value) : completion (list route) :=
  if negb (truthy spec) || negb (truthy (get spec "paths"))
     || negb (jstype_eqb (typeof (get spec "paths")) TObject)
  then Throw no_paths_error
  else register_paths (own_enumerable (get spec "paths")) [].

End Router.

Module Health.
Import JS Router.

(** The module variable [openapiLoaded] is threaded as a boolean. *)
Definition initially_loaded : bool := false.

(** [markOpenAPILoaded(ok)]: the new value of [openapiLoaded]. *)
Definition markOpenAPILoaded (ok : value) : bool := truthy ok.

(** [isHealthy()] *)
Definition isHealthy (openapiLoaded : bool) : bool := openapiLoaded.

(** [healthHandler(req, res)] *)
Definition healthHandler (openapiLoaded : bool) : response :=
  if negb (isHealthy openapiLoaded)
  then {| status := 503; json := JObj [("status", JStr "starting")] |}
  else {| status := 200; json := JObj [("status", JStr "ok")] |}.

End Health.

Module OpenAPI.
Import JS Router Health.

(** The module variables of openapi.js and health.js. *)
Record state : Type := State { cachedSpec : value; openapiLoaded : bool }.

Definition initial : state := {| cachedSpec := JNull; openapiLoaded := initially_loaded |}.

(** [r.ok] *)
Definition response_ok (status : Z) : bool := ((200 <=? status) && (status <=? 299))%Z.

(** [spec.info?.k]: reading [info] raises on [null] and [undefined]. *)
Definition info_field (spec : value) (k : string) : completion value :=
  if is_nullish spec
  then Throw (TypeError "Cannot read properties of null or undefined (reading 'info')")
  else
    let info := get spec "info" in
    Normal (if is_nullish info then JUndefined else get info k).

(** The template literal of the log line after a successful load. *)
Definition loaded_message (spec : value) : completion string :=
  title <- info_field spec "title" ;;
  t <- ToString (if truthy title then title else JStr "unknown") ;;
  version <- info_field spec "version" ;;
  v <- ToString (if truthy version then version else JStr "?") ;;
  Normal ("OpenAPI loaded: " ++ t ++ " v" ++ v)%string.

Definition not_ok_error (status : Z) (txt : string) : js_error :=
  Err "Error" ("Upstream returned " ++ number_to_string (normalize_number status 0)
               ++ ": " ++ txt)%string.

(** The [try] block of [fetchOpenAPIOnce] on what the upstream call
    delivers.  The message of the SyntaxError of [JSON.parse] is not
    modelled. *)
Definition load_attempt (st : state) (up : upstream) : state * completion value :=
  match up with
  | Rejected e => (st, Throw e)
  | Responded status txt =>
      if negb (response_ok status) then (st, Throw (not_ok_error status txt))
      else
        match JSON_parse txt with
        | None => (st, Throw (Err "SyntaxError" ""))
        | Some spec =>
            let st1 := {| cachedSpec := spec;
                          openapiLoaded := markOpenAPILoaded (JBool true) |} in
            match loaded_message spec with
            | Normal _ => (st1, Normal spec)
            | Throw e => (st1, Throw e)
            end
        end
  end.

(** [fetchOpenAPIOnce()]: the [catch] block marks the load as failed and
    raises again. *)
Definition fetchOpenAPIOnce (st : state) (up : upstream) : state * completion value :=
  match load_attempt st up with
  | (st1, Normal spec) => (st1, Normal spec)
  | (st1, Throw e) =>
      ({| cachedSpec := cachedSpec st1;
          openapiLoaded := markOpenAPILoaded (JBool false) |}, Throw e)
  end.

(** [fetchOpenAPIWithRetry()] against the outcomes of the successive
    attempts: the loop returns at the first attempt that succeeds; [None]
    tells that every listed attempt failed and the loop goes on. *)
Fixpoint fetchOpenAPIWithRetry (st : state) (attempts : list upstream) : state * option value :=
  match attempts with
  | [] => (st, None)
  | up :: rest =>
      match fetchOpenAPIOnce st up with
      | (st1, Normal spec) => (st1, Some spec)
      | (st1, Throw _) => fetchOpenAPIWithRetry st1 rest
      end
  end.

(** [getCachedOpenAPI()] *)
Definition getCachedOpenAPI (st : state) : value := cachedSpec st.

(** What becomes of the start-up function of server.js.  It awaits the
    description, builds the router and only then calls [app.listen].  The
    function has no [catch] and its promise no handler: under the node 22 of
    the Dockerfile a rejection ends the process, which then has never
    listened. *)
Inductive startup_outcome : Type :=
| Retrying (st : state)
| Exited (e : js_error)
| Listening (st : state) (routes : list route).

(** The start-up function against the outcomes of the successive attempts
    to load the description.  [Retrying]: every listed attempt failed, the
    loop goes on and [app.listen] has not been called. *)
Definition startup (attempts : list upstream) : startup_outcome :=
  match fetchOpenAPIWithRetry initial attempts with
  | (st, None) => Retrying st
  | (st, Some spec) =>
      match buildRouterFromOpenAPI spec with
      | Throw e => Exited e
      | Normal routes => Listening st routes
      end
  end.

End OpenAPI.

(** * Properties *)

Import JS Parser Router Health OpenAPI.

(** ** Data of the worked examples *)

Definition num (z : Z) : value := JNum (normalize_number z 0).

(** [s] between two quotes. *)
Definition q (s : string) : string := String quote (s ++ String quote EmptyString)%string.

Definition nl : string := String LF EmptyString.

(** [{"items":[{"Bookmark_ID":"1","Title":"A"},{"description":"d"},
      {"Bookmark_ID":"2","Title":"B"}], "next_page_token":"5"}] *)
Definition example1_input : value :=
  JObj [("items", JArr [JObj [("Bookmark_ID", JStr "1"); ("Title", JStr "A")];
                        JObj [("description", JStr "d")];
                        JObj [("Bookmark_ID", JStr "2"); ("Title", JStr "B")]]);
        ("next_page_token", JStr "5")].

Definition example1_output : value :=
  JObj [("items", JArr [JObj [("Bookmark_ID", JStr "1"); ("Title", JStr "A");
                              ("description", JStr "d")];
                        JObj [("Bookmark_ID", JStr "2"); ("Title", JStr "B")]]);
        ("nextCursor", JStr "5");
        ("hasMore", JBool true)].

(** The free text of Example 4: three lines. *)
Definition example4_text : string :=
  ("Title: Hello" ++ nl ++ "Tags: a, b, c" ++ nl ++ "Next cursor: '7'")%string.

(** What Example 4 expects: one record, lower-case keys. *)
Definition example4_expected : value :=
  JObj [("items", JArr [JObj [("title", JStr "Hello");
                              ("tags", JArr [JStr "a"; JStr "b"; JStr "c"])]]);
        ("cursor", JStr "7");
        ("hasMore", JBool true)].

(** What the parser returns on it: a record per zero-indent line, keys in
    the letter case of the text. *)
Definition example4_actual : value :=
  JObj [("items", JArr [JObj [("Title", JStr "Hello")];
                        JObj [("Tags", JArr [JStr "a"; JStr "b"; JStr "c"])]]);
        ("cursor", JStr "7");
        ("hasMore", JBool true)].

(** A page whose first record carries the literal identifier [tmp_1] and
    whose next two records carry no identifier. *)
Definition placeholder_clash_input : value :=
  JObj [("items", JArr [JObj [("Bookmark_ID", JStr "tmp_1"); ("x", num 1)];
                        JObj [("Bookmark_ID", JNull); ("a", num 1)];
                        JObj [("Bookmark_ID", JNull); ("b", num 2)]])].

(** A page that normalises to [renormalized_page]. *)
Definition renormalized_source : value :=
  JObj [("items", JArr [JObj [("Bookmark_ID", JStr "tmp_1")];
                        JObj [("Bookmark_ID", JNull); ("a", num 1)];
                        JObj [("Bookmark_ID", JStr "tmp_0"); ("b", num 2)]])].

Definition renormalized_items : list props :=
  [[("Bookmark_ID", JNull); ("a", num 1)];
   [("Bookmark_ID", JStr "tmp_0"); ("b", num 2)]].

Definition renormalized_page : value := page_result renormalized_items JNull false.

(** The items of a page result. *)
Definition items_of (page : value) : value := get page "items".

(** The JSON text [{"a":1}] and the value it denotes. *)
Definition inner_text : string := ("{" ++ q "a" ++ ":1}")%string.

Definition inner_payload : value := JObj [("a", num 1)].

(** The JSON text of the envelope [{"result": "{\"a\":1}", "sources": []}]
    and the value it denotes. *)
Definition envelope_text : string :=
  ("{" ++ q "result" ++ ": " ++ JSON_stringify_string inner_text ++ ", "
       ++ q "sources" ++ ": []}")%string.

Definition envelope : value :=
  JObj [("result", JStr inner_text); ("sources", JArr [])].

(** [t] wrapped [k] times as a JSON string. *)
Fixpoint wrapped (k : nat) (t : string) : string :=
  match k with
  | O => t
  | S k' => JSON_stringify_string (wrapped k' t)
  end.

(** The text at nesting depth [depth] over the JSON text [t] of a container:
    [t] itself at depth 1, a JSON string of the text of depth [d] at depth
    [d + 1]. *)
Definition encoded (depth : nat) (t : string) : string := wrapped (depth - 1) t.

(** The JSON text [{"items":[]}]. *)
Definition empty_page_text : string := ("{" ++ q "items" ++ ":[]}")%string.




(** An envelope whose [result] is an object with an own [toString] field. *)
Definition unprintable_envelope : value :=
  JObj [("result", JObj [("toString", num 1)])].

(** ** Predicates of the statements *)

(** A record whose [Bookmark_ID] is falsy: it carries no identifier. *)
Definition identifier_less (it : props) : bool :=
  negb (truthy (get (JObj it) "Bookmark_ID")).

(** The keys of the map of the second loop are in step with its size: a
    placeholder key [tmp_n] has [n] below the size, and a record stored
    under any other key carries an identifier. *)
Definition keys_in_step (m : id_map) : Prop :=
  (forall k r n, In (k, r) m -> k = placeholder n -> n < List.length m)
  /\ (forall k r, In (k, r) m -> (forall n, k <> placeholder n) ->
                  identifier_less r = false).

(** No record carries a placeholder as its identifier. *)
Definition no_placeholder_identifier (l : list props) : Prop :=
  forall it n, In it l -> get (JObj it) "Bookmark_ID" <> placeholder n.

(** The enumeration order of own keys: array indices first, ascending, then
    the other keys. *)
Definition key_before (a b : string) : Prop :=
  match array_index a, array_index b with
  | Some x, Some y => (x < y)%N
  | None, Some _ => False
  | _, _ => True
  end.

(** An object as [JSON.parse] and the spreads build it: distinct keys, in
    enumeration order. *)
Definition canonical (o : props) : Prop :=
  distinct_keys o /\ StronglySorted key_before (map fst o).

(** The identifiers that are present are pairwise different map keys. *)
Definition identifiers_differ (a b : props) : Prop :=
  identifier_less a = false -> identifier_less b = false ->
  same_value_zero (get (JObj a) "Bookmark_ID") (get (JObj b) "Bookmark_ID") = false.

(** A list of records as the normaliser leaves it: each record is canonical
    and owns [Bookmark_ID], no identifier is a placeholder, and the
    identifiers that are present differ pairwise. *)
Definition deduplicated (l : list props) : Prop :=
  Forall canonical l
  /\ Forall (fun it => has_own it "Bookmark_ID" = true) l
  /\ no_placeholder_identifier l
  /\ ForallOrdPairs identifiers_differ l.

(** A normalised page with two identified records and one without
    identifier. *)
Definition settled_items : list props :=
  [[("Bookmark_ID", JStr "1"); ("Title", JStr "A"); ("description", JStr "d")];
   [("Bookmark_ID", JNull); ("note", JStr "n")];
   [("Bookmark_ID", JStr "2"); ("Title", JStr "B")]].

(** What the loop of [parseKVBlocks] keeps true of its variables: no record
    pushed to [items] is empty, and [cursor] and [hasMore] were set by the
    same cursor line. *)
Definition kv_settled (st : kv_state) : Prop :=
  Forall (fun r : props => r <> []) (items st)
  /\ ((cursor st = None /\ hasMore st = None)
      \/ exists c, cursor st = Some c
                   /\ hasMore st = Some (negb (String.eqb c "") && negb (String.eqb c "0"))).

(** The character [c] occurs in [s]. *)
Definition occurs (c : ascii) (s : string) : bool := string_exists (Ascii.eqb c) s.

(** The three spellings the path pattern accepts, in lower case. *)
Definition bookmarks_marker (m : string) : Prop :=
  m = "searchbookmarks" \/ m = "search_bookmarks" \/ m = "search-bookmarks".

(** The test of the first loop of the normaliser: the row is an object that
    owns [Bookmark_ID]. *)
Definition carries_identifier (row : value) : bool :=
  truthy_object row && hasOwnProperty row "Bookmark_ID".

(** [Array.isArray(raw.items) ? raw.items : []] *)
Definition rows_of (raw : value) : list value :=
  match get raw "items" with
  | JArr l => l
  | _ => []
  end.

(** The record owns the field [Bookmark_ID]. *)
Definition owns_identifier (it : props) : Prop := has_own it "Bookmark_ID" = true.

(** [path] has a path item with a key [m] that spells, in any letter case,
    the supported method [lower]. *)
Definition declares (paths : value) (path lower : string) : Prop :=
  exists pathObj keys m,
    In (path, pathObj) (own_enumerable paths)
    /\ Object_keys pathObj = Normal keys
    /\ In m keys
    /\ toLowerCase m = lower
    /\ supported_method lower = true.

(** An API description with two paths; the first declares GET, POST in
    capitals and DELETE, the second only PUT. *)
Definition sample_spec : value :=
  JObj [("openapi", JStr "3.1.0");
        ("paths", JObj [("/search-bookmarks",
                         JObj [("get", JObj []); ("POST", JObj []); ("delete", JObj [])]);
                        ("/lists", JObj [("put", JObj [])])])].

(** The attempt [up] loads the description [spec]: the upstream answered
    with a 2xx status and a body that is the JSON text of [spec], and the
    log line about [spec] could be written. *)
Definition loads (up : upstream) (spec : value) : Prop :=
  exists status txt msg,
    up = Responded status txt
    /\ response_ok status = true
    /\ JSON_parse txt = Some spec
    /\ loaded_message spec = Normal msg.

(** The attempt loads nothing. *)
Definition fails (up : upstream) : Prop := forall spec, ~ loads up spec.

Definition ready_with (spec : value) : state :=
  {| cachedSpec := spec; openapiLoaded := true |}.

Definition starting_response : response :=
  {| status := 503; json := JObj [("status", JStr "starting")] |}.

Definition ok_response : response :=
  {| status := 200; json := JObj [("status", JStr "ok")] |}.

(** The JSON text [{"openapi":"3.1.0"}]: a description without paths. *)
Definition pathless_text : string :=
  ("{" ++ q "openapi" ++ ":" ++ q "3.1.0" ++ "}")%string.

Definition pathless_spec : value := JObj [("openapi", JStr "3.1.0")].

(** The JSON text [{"paths":{"/search":{"post":{}}}}] and the description it
    denotes. *)
Definition one_route_text : string :=
  ("{" ++ q "paths" ++ ":{" ++ q "/search" ++ ":{" ++ q "post" ++ ":{}}}}")%string.

Definition one_route_spec : value :=
  JObj [("paths", JObj [("/search", JObj [("post", JObj [])])])].

(** ** The candidates of the extraction *)











(** ** Rows around two fragments of one record *)





(** ** Proof automation *)

(** Closes the cases on the two boolean fields. *)
Ltac settle_has_more :=
  repeat split; intros;
  repeat match goal with H : exists _, _ |- _ => destruct H end;
  try congruence; try discriminate;
  try (exfalso; auto; fail);
  try (eexists; reflexivity).

(** ** Worked examples *)

(** C1: on the input of Example 1 [normalizeKarakeepPayload] returns exactly
    the output of Example 1: the fragment without identifier is folded into
    the record before it, the records keep their first-occurrence order, and
    [next_page_token] becomes [nextCursor] with [hasMore] inferred true. *)
Theorem normalize_example1 :
  normalizeKarakeepPayload example1_input = example1_output.
Proof. vm_compute. reflexivity. Qed.

(** C7, failing input: two records without identifier that follow a record
    whose identifier is the literal [tmp_1] both receive the placeholder
    [tmp_1] (the map size stays 1) and end up in one merged record together
    with it, instead of yielding an entry each. *)
Theorem placeholder_clash_merges_records :
  normalizeKarakeepPayload placeholder_clash_input
  = page_result [[("Bookmark_ID", JNull); ("x", num 1); ("a", num 1); ("b", num 2)]]
                JNull false.
Proof. vm_compute. reflexivity. Qed.

(** C8, as the code has it: on the text of Example 4 the fallback parser
    returns two records, one per zero-indent key line, with the keys [Title]
    and [Tags] in the letter case of the text; the tags are split on commas
    and trimmed, and the cursor line gives cursor 7 with [hasMore] true.
    [input2JSON] returns the same value. *)
Theorem parseKVBlocks_example4 :
  parseKVBlocks example4_text = example4_actual
  /\ input2JSON (JStr example4_text) = example4_actual.
Proof. split; vm_compute; reflexivity. Qed.

(** C8, counterexample: the value Example 4 states is not what the parser
    returns, called directly or through [input2JSON]. *)
Lemma parseKVBlocks_example4_differs :
  parseKVBlocks example4_text <> example4_expected
  /\ input2JSON (JStr example4_text) <> example4_expected.
Proof. split; vm_compute; discriminate. Qed.

(** C9, failing input: [renormalized_page] is an output of the normaliser
    (one fragment per record, distinct identifiers), and normalising it again
    merges its two records into one, so the items list changes. *)
Theorem renormalize_changes_items :
  normalizeKarakeepPayload renormalized_source = renormalized_page
  /\ items_of (normalizeKarakeepPayload renormalized_page)
     = JArr [JObj [("Bookmark_ID", JStr "tmp_0"); ("a", num 1); ("b", num 2)]]
  /\ items_of (normalizeKarakeepPayload renormalized_page) <> items_of renormalized_page.
Proof. repeat split; vm_compute; try reflexivity; discriminate. Qed.

(** ** The canonical shape *)

Lemma trim_nonempty (s : string) : is_empty (trim s) = false -> s <> EmptyString.
Proof. intros H E. subst s. discriminate H. Qed.

Lemma find_some_holds {A : Type} (p : A -> bool) (l : list A) (x : A) :
  find p l = Some x -> p x = true.
Proof.
  induction l as [|a l IH]; simpl; [discriminate|].
  destruct (p a) eqn:E; [intros [= <-]; exact E | exact IH].
Qed.

(** The canonical cursor is [null] or a string that is not blank. *)
Lemma find_token_cases (candidates : list value) :
  find_token candidates = JNull
  \/ exists s, find_token candidates = JStr s /\ is_empty (trim s) = false.
Proof.
  unfold find_token.
  destruct (find is_token candidates) as [t|] eqn:F; [|now left].
  apply find_some_holds in F.
  destruct t; simpl in F; try discriminate.
  apply negb_true_iff in F.
  right. exists s. split; [|exact F].
  destruct s; [discriminate F | reflexivity].
Qed.

(** C2: for every input value [normalizeKarakeepPayload] returns the shape
    [{ items, nextCursor, hasMore }]; an input that is not an object gives
    empty items, a null cursor and [hasMore] false; [nextCursor] is null or a
    non-empty string; a boolean [hasMore] field decides [hasMore], else a
    boolean [has_more] field does, and with neither [hasMore] is true exactly
    when [nextCursor] is a string (so never when it is null). *)
Theorem normalize_canonical_shape (raw : value) :
  exists (items : list props) (nextCursor : value) (hasMore : bool),
    normalizeKarakeepPayload raw = page_result items nextCursor hasMore
    /\ (truthy_object raw = false ->
        items = [] /\ nextCursor = JNull /\ hasMore = false)
    /\ (nextCursor = JNull \/ exists s, nextCursor = JStr s /\ s <> EmptyString)
    /\ (forall b, get raw "hasMore" = JBool b -> hasMore = b)
    /\ (forall b, typeof (get raw "hasMore") <> TBoolean ->
                  get raw "has_more" = JBool b -> hasMore = b)
    /\ (typeof (get raw "hasMore") <> TBoolean ->
        typeof (get raw "has_more") <> TBoolean ->
        (hasMore = true <-> exists s, nextCursor = JStr s)).
Proof.
  unfold normalizeKarakeepPayload.
  destruct (negb (truthy raw) || negb (jstype_eqb (typeof raw) TObject)) eqn:G.
  - exists [], JNull, false. split; [reflexivity|].
    assert (U : forall k, get raw k = JUndefined).
    { intro k. destruct raw as [| |b|n|s|l|o]; try reflexivity; discriminate G. }
    repeat split; auto.
    + intros b Hb. rewrite U in Hb. discriminate.
    + intros b _ Hb. rewrite U in Hb. discriminate.
    + discriminate.
    + intros [s Hs]. discriminate.
  - set (tok := find_token _).
    assert (T : truthy_object raw = true).
    { unfold truthy_object. apply orb_false_iff in G. destruct G as [G1 G2].
      apply negb_false_iff in G1, G2. now rewrite G1, G2. }
    destruct (find_token_cases
                [get raw "nextCursor"; get raw "next_cursor"; get raw "nextPageToken";
                 get raw "next_page_token"; get raw "cursor"]) as [N|[s [N S]]];
      fold tok in N.
    + eexists _, tok, _. split; [reflexivity|].
      split; [intro F; rewrite T in F; discriminate|].
      split; [now left|].
      rewrite N.
      destruct (get raw "hasMore") as [| |b1|?|?|?|?] eqn:H1;
        destruct (get raw "has_more") as [| |b2|?|?|?|?] eqn:H2; simpl;
        settle_has_more.
    + assert (S' : s <> EmptyString) by (apply trim_nonempty; exact S).
      assert (Ts : truthy (JStr s) = true) by (destruct s; [congruence|reflexivity]).
      eexists _, tok, _. split; [reflexivity|].
      split; [intro F; rewrite T in F; discriminate|].
      split; [right; exists s; split; [exact N|exact S']|].
      rewrite N, Ts, S.
      destruct (get raw "hasMore") as [| |b1|?|?|?|?] eqn:H1;
        destruct (get raw "has_more") as [| |b2|?|?|?|?] eqn:H2; simpl;
        settle_has_more.
Qed.

(** ** Extraction from text *)

Lemma truthy_object_is_container (v : value) : truthy_object v = is_container v.
Proof.
  unfold truthy_object. destruct v; simpl; rewrite ?andb_false_r; reflexivity.
Qed.

(** Rescue from text yields [null] or a container. *)
Lemma extract_null_or_container (t : value) :
  extractFirstJSONObjectFromText t = JNull
  \/ is_container (extractFirstJSONObjectFromText t) = true.
Proof.
  unfold extractFirstJSONObjectFromText.
  destruct t; auto.
  destruct (truthy_object (tryParseJSON (JStr s))) eqn:D.
  - right. now rewrite <- truthy_object_is_container.
  - destruct (match match_span "{" "}" s with
              | Some m => Some m
              | None => match_span "[" "]" s
              end) as [m|]; auto.
    destruct (truthy_object (tryParseJSON (JStr m))) eqn:M; auto.
    right. now rewrite <- truthy_object_is_container.
Qed.

Lemma parseToolResponse_string (s : string) :
  parseToolResponse (JStr s) = Normal (extractFirstJSONObjectFromText (JStr s)).
Proof. reflexivity. Qed.

(** The direct parse of a text that decodes to a container is returned. *)
Lemma extract_direct (s : string) (v : value) :
  JSON_parse s = Some v -> is_container v = true ->
  extractFirstJSONObjectFromText (JStr s) = v.
Proof.
  intros P C. unfold extractFirstJSONObjectFromText, tryParseJSON. simpl.
  rewrite P, truthy_object_is_container, C. reflexivity.
Qed.

(** The [try] block raises nothing once the upstream has answered. *)
Lemma process_body_normal (path bodyStr : string) :
  exists payload, process_body path bodyStr = Normal payload.
Proof. unfold process_body. rewrite parseToolResponse_string. simpl. eauto. Qed.

(** ** The route handler *)

Lemma append_assoc (a b c : string) : ((a ++ b) ++ c = a ++ (b ++ c))%string.
Proof. induction a as [|x a IH]; simpl; [reflexivity | now rewrite IH]. Qed.

(** C5: the handler answers every call.  When the upstream call is rejected
    with an AbortError (the timeout fired) the answer is status 504 and the
    body [{ detail }] whose message names the path and the elapsed duration,
    the difference of the two clock readings printed as a number, followed
    by [ms]; when the [try] block raises anything else the answer is status
    502, which differs from 504, and the body [{ detail }] with the generic
    message; when nothing is raised the answer is the one the [try] block
    built.  Nothing raised in the [try] block leaves the handler. *)
Theorem handler_failure_semantics (path : string) (startedAt now : Z) (up : upstream) :
  exists r : response,
    handler path startedAt now up = Normal r
    /\ (forall e, up = Rejected e -> err_name e = "AbortError" ->
        status r = 504%Z
        /\ json r
           = JObj [("detail",
                    JStr ("Upstream timeout on " ++ path ++ " after "
                          ++ number_to_string (normalize_number (now - startedAt) 0)
                          ++ "ms")%string)])
    /\ (forall e, try_block path up = Throw e -> err_name e <> "AbortError" ->
        status r = 502%Z
        /\ json r = JObj [("detail", JStr ("Shim failed on " ++ path)%string)]
        /\ status r <> 504%Z)
    /\ (forall r', try_block path up = Normal r' -> r = r').
Proof.
  unfold handler.
  destruct up as [st bodyStr|e0]; unfold try_block.
  - destruct (process_body_normal path bodyStr) as [p Hp]. rewrite Hp. simpl.
    eexists. split; [reflexivity|].
    split; [intros e E; discriminate E|].
    split; [intros e E; discriminate E|].
    intros r' E. now injection E.
  - destruct (String.eqb (err_name e0) "AbortError") eqn:A.
    + apply String.eqb_eq in A.
      eexists. split; [reflexivity|]. simpl.
      split; [intros e _ _; split; reflexivity|].
      split; [intros e E N; injection E as <-; contradiction|].
      intros r' E. discriminate E.
    + apply String.eqb_neq in A.
      eexists. split; [reflexivity|]. simpl.
      split; [intros e E N; injection E as <-; contradiction|].
      split; [|intros r' E; discriminate E].
      intros e _ _. split; [reflexivity|]. split; [reflexivity|]. discriminate.
Qed.

(** C5, at a call whose upstream was aborted 20000 ms after it started, and
    at a call whose connection was refused. *)
Lemma handler_timeout_witness :
  handler "/get-lists" 1000 21000 (Rejected (Err "AbortError" "The operation was aborted."))
  = Normal {| status := 504;
              json := JObj [("detail",
                             JStr "Upstream timeout on /get-lists after 20000ms")] |}
  /\ handler "/get-lists" 1000 1003 (Rejected (Err "FetchError" "connect ECONNREFUSED"))
     = Normal {| status := 502;
                 json := JObj [("detail", JStr "Shim failed on /get-lists")] |}.
Proof.
  split.
  - destruct (handler_failure_semantics "/get-lists" 1000 21000
                (Rejected (Err "AbortError" "The operation was aborted.")))
      as [r [H [T _]]].
    destruct (T _ eq_refl eq_refl) as [S J].
    rewrite H. destruct r as [st js]. simpl in S, J. now rewrite S, J.
  - destruct (handler_failure_semantics "/get-lists" 1000 1003
                (Rejected (Err "FetchError" "connect ECONNREFUSED")))
      as [r [H [_ [F _]]]].
    destruct (F _ eq_refl) as [S [J _]]; [discriminate|].
    rewrite H. destruct r as [st js]. simpl in S, J. now rewrite S, J.
Defined.

(** ** A body that is JSON text *)

(** C10: a string whose direct JSON parse is an object or an array is
    answered by [parseToolResponse] with that parsed value itself; the
    handler passes the upstream body as a string, so the body of an upstream
    answer whose cleaned text decodes to a container reaches
    [normalizeToolPayload] as that whole container, an envelope included. *)
Theorem string_body_returned_whole (s : string) (v : value) :
  JSON_parse s = Some v ->
  is_container v = true ->
  parseToolResponse (JStr s) = Normal v
  /\ forall path bodyStr,
       stripDebugBlocks bodyStr = s ->
       process_body path bodyStr = Normal (normalizeToolPayload v path).
Proof.
  intros P C.
  assert (E : parseToolResponse (JStr s) = Normal v).
  { rewrite parseToolResponse_string. now rewrite (extract_direct s v P C). }
  split; [exact E|].
  intros path bodyStr S. unfold process_body. rewrite S, E. simpl.
  destruct v; try discriminate C; reflexivity.
Qed.

(** C10, at the text of an envelope: the string is answered with the whole
    envelope and the handler's pipeline returns the envelope, whereas the
    decoded envelope would be answered with its inner payload. *)
Lemma string_body_returned_whole_witness :
  JSON_parse envelope_text = Some envelope
  /\ parseToolResponse (JStr envelope_text) = Normal envelope
  /\ process_body "/get-lists" envelope_text = Normal envelope
  /\ parseToolResponse envelope = Normal inner_payload.
Proof.
  assert (P : JSON_parse envelope_text = Some envelope) by (vm_compute; reflexivity).
  destruct (string_body_returned_whole envelope_text envelope P eq_refl) as [A B].
  split; [exact P|]. split; [exact A|].
  split; [|vm_compute; reflexivity].
  rewrite (B "/get-lists" envelope_text); [|vm_compute; reflexivity].
  vm_compute. reflexivity.
Defined.

(** ** Unwrapping nested JSON strings *)

(** Reading back an escaped string: the decoder recovers the string and
    stops after the closing quote. *)
Lemma parse_string_body_escape (s rest : string) :
  parse_string_body (escape_string s ++ String quote rest)%string = Some (s, rest).
Proof.
  induction s as [|c s IH]; [reflexivity|].
  destruct c as [[] [] [] [] [] [] [] []]; simpl; rewrite IH; reflexivity.
Qed.

(** [JSON.parse(JSON.stringify(s))] is [s], for every string [s]. *)
Lemma JSON_parse_stringify_string (s : string) :
  JSON_parse (JSON_stringify_string s) = Some (JStr s).
Proof.
  unfold JSON_parse, JSON_stringify_string.
  change (skip_ws (String quote (escape_string s ++ String quote EmptyString)))
    with (String quote (escape_string s ++ String quote EmptyString)%string).
  cbn [parse_value].
  change (code quote =? 123)%N with false.
  change (code quote =? 91)%N with false.
  change (code quote =? 34)%N with true.
  cbv iota.
  rewrite parse_string_body_escape. reflexivity.
Qed.

Lemma tryParseJSON_string (s : string) :
  tryParseJSON (JStr s) = match JSON_parse s with Some v => v | None => JNull end.
Proof. reflexivity. Qed.

(** The loop on a text wrapped [k] times, with [n] iterations left: it
    reaches the container when [k < n], and otherwise stops [n] layers
    down. *)
Lemma unwrap_loop_wrapped (C : value) (t : string) :
  JSON_parse t = Some C -> is_container C = true ->
  forall n k,
    (k < n -> unwrap_loop n (wrapped k t)
              = {| parsed := C; text := t |})
    /\ (n <= k -> unwrap_loop n (wrapped k t)
                  = {| parsed := JNull;
                       text := wrapped (k - n) t |}).
Proof.
  intros P HC.
  induction n as [|n IH]; intro k.
  - split; [lia|]. intros _. now rewrite Nat.sub_0_r.
  - destruct k as [|k].
    + split; [|lia]. intros _. cbn [wrapped unwrap_loop].
      rewrite tryParseJSON_string, P.
      destruct C; try discriminate HC; reflexivity.
    + destruct (IH k) as [IH1 IH2].
      cbn [wrapped unwrap_loop].
      rewrite tryParseJSON_string, JSON_parse_stringify_string.
      split; intro L; [apply IH1 | rewrite IH2]; try lia.
      reflexivity.
Qed.

(** C4: let [t] be a JSON text of a container [C].  Wrapped to any depth
    from 1 to 5 (the text itself at depth 1, a JSON string of it at depth 2,
    and so on) it unwraps to [C]; wrapped deeper, the loop stops at its
    bound with no parsed value and keeps as text the layer it reached, five
    layers down. *)
Theorem unwrap_bounded_depth (C : value) (t : string) (depth : nat) :
  JSON_parse t = Some C ->
  is_container C = true ->
  (1 <= depth <= 5 ->
   unwrapDeepJSONString (encoded depth t) = {| parsed := C; text := t |})
  /\ (5 < depth ->
      unwrapDeepJSONString (encoded depth t)
      = {| parsed := JNull; text := encoded (depth - 5) t |}).
Proof.
  intros P HC. unfold unwrapDeepJSONString, encoded, maxDepth_default.
  destruct (unwrap_loop_wrapped C t P HC 5 (depth - 1)) as [A B].
  split; intro D.
  - apply A. lia.
  - rewrite B by lia. do 2 f_equal. lia.
Qed.

(** C4, at [{"a":1}]: depth 5 unwraps to the object, depth 6 does not and
    keeps the text of depth 1. *)
Lemma unwrap_bounded_depth_witness :
  unwrapDeepJSONString (encoded 5 inner_text)
  = {| parsed := inner_payload; text := inner_text |}
  /\ unwrapDeepJSONString (encoded 6 inner_text)
     = {| parsed := JNull; text := inner_text |}.
Proof.
  assert (P : JSON_parse inner_text = Some inner_payload) by (vm_compute; reflexivity).
  destruct (unwrap_bounded_depth inner_payload inner_text 5 P eq_refl) as [A _].
  destruct (unwrap_bounded_depth inner_payload inner_text 6 P eq_refl) as [_ B].
  split; [apply A; lia | apply B; lia].
Defined.

(** ** Own properties after a definition *)

Section OwnProperties.

Variables (k : string) (v : value).

Lemma get_own_replace (o : props) (k' : string) :
  has_own o k = true ->
  get_own (replace_own o k v) k' = if String.eqb k k' then Some v else get_own o k'.
Proof.
  unfold has_own.
  induction o as [|[k0 v0] o IH]; simpl; [discriminate|].
  destruct (String.eqb k0 k) eqn:E0.
  - intros _. apply String.eqb_eq in E0. subst k0. simpl.
    destruct (String.eqb k k'); reflexivity.
  - intro H. simpl. rewrite (IH H).
    destruct (String.eqb k0 k') eqn:E1; [|reflexivity].
    apply String.eqb_eq in E1. subst k0.
    rewrite String.eqb_sym, E0. reflexivity.
Qed.

Lemma get_own_insert_index (n : N) (o : props) (k' : string) :
  has_own o k = false ->
  get_own (insert_index n k v o) k' = if String.eqb k k' then Some v else get_own o k'.
Proof.
  unfold has_own.
  induction o as [|[k0 v0] o IH]; simpl; [reflexivity|].
  destruct (String.eqb k0 k) eqn:E0; [discriminate|].
  intro H.
  assert (S : get_own ((k, v) :: (k0, v0) :: o) k'
              = if String.eqb k k' then Some v else get_own ((k0, v0) :: o) k')
    by reflexivity.
  destruct (array_index k0) as [n0|]; [|exact S].
  destruct (n <? n0)%N; [exact S|].
  simpl. rewrite (IH H).
  destruct (String.eqb k0 k') eqn:E1; [|reflexivity].
  apply String.eqb_eq in E1. subst k0.
  rewrite String.eqb_sym, E0. reflexivity.
Qed.

Lemma get_own_append (o : props) (k' : string) :
  has_own o k = false ->
  get_own (o ++ [(k, v)]) k' = if String.eqb k k' then Some v else get_own o k'.
Proof.
  unfold has_own.
  induction o as [|[k0 v0] o IH]; simpl; [reflexivity|].
  destruct (String.eqb k0 k) eqn:E0; [discriminate|].
  intro H. rewrite (IH H).
  destruct (String.eqb k0 k') eqn:E1; [|reflexivity].
  apply String.eqb_eq in E1. subst k0.
  rewrite String.eqb_sym, E0. reflexivity.
Qed.

(** The key just defined reads back the value; every other key is
    untouched. *)
Lemma get_own_define (o : props) (k' : string) :
  get_own (define_prop o k v) k' = if String.eqb k k' then Some v else get_own o k'.
Proof.
  unfold define_prop.
  destruct (has_own o k) eqn:H.
  - now apply get_own_replace.
  - destruct (array_index k); [now apply get_own_insert_index | now apply get_own_append].
Qed.

End OwnProperties.

(** ** Distinct keys *)

Lemma get_own_absent (o : props) (k : string) :
  ~ In k (map fst o) <-> get_own o k = None.
Proof.
  induction o as [|[k0 v0] o IH]; simpl; [tauto|].
  destruct (String.eqb k0 k) eqn:E.
  - apply String.eqb_eq in E. split; [intro H; exfalso; apply H; now left | discriminate].
  - apply String.eqb_neq in E. rewrite <- IH. tauto.
Qed.

Lemma has_own_absent (o : props) (k : string) :
  has_own o k = false -> ~ In k (map fst o).
Proof.
  unfold has_own. intro H. apply get_own_absent.
  destruct (get_own o k); [discriminate | reflexivity].
Qed.

Lemma keys_replace_own (o : props) (k : string) (v : value) :
  map fst (replace_own o k v) = map fst o.
Proof.
  induction o as [|[k0 v0] o IH]; simpl; [reflexivity|].
  destruct (String.eqb k0 k); simpl; [reflexivity | now rewrite IH].
Qed.

Lemma keys_insert_index (n : N) (k : string) (v : value) (o : props) :
  Permutation (k :: map fst o) (map fst (insert_index n k v o)).
Proof.
  induction o as [|[k0 v0] o IH]; simpl; [reflexivity|].
  destruct (array_index k0) as [n0|]; [|reflexivity].
  destruct (n <? n0)%N; [reflexivity|].
  simpl. rewrite perm_swap. now apply perm_skip.
Qed.

Lemma distinct_keys_define (o : props) (k : string) (v : value) :
  distinct_keys o -> distinct_keys (define_prop o k v).
Proof.
  unfold distinct_keys, define_prop. intro D.
  destruct (has_own o k) eqn:H.
  - now rewrite keys_replace_own.
  - apply has_own_absent in H.
    assert (D' : NoDup (k :: map fst o)) by now constructor.
    destruct (array_index k) as [n|].
    + exact (Permutation_NoDup (keys_insert_index n k v o) D').
    + rewrite map_app. simpl.
      exact (Permutation_NoDup (Permutation_cons_append (map fst o) k) D').
Qed.

Lemma spread_into_object (target o : props) :
  spread_into target (JObj o) = define_all target o.
Proof. reflexivity. Qed.

Lemma distinct_keys_define_all (entries target : props) :
  distinct_keys target -> distinct_keys (define_all target entries).
Proof.
  revert target.
  induction entries as [|[k v] l IH]; intros target D; [exact D|].
  apply (IH (define_prop target k v)). now apply distinct_keys_define.
Qed.

(** A spread reads back the source where the source has the key, and the
    target elsewhere. *)
Lemma get_own_define_all (entries : props) :
  distinct_keys entries ->
  forall (target : props) (k : string),
    get_own (define_all target entries) k
    = match get_own entries k with
      | Some v => Some v
      | None => get_own target k
      end.
Proof.
  induction entries as [|[k0 v0] l IH]; intros D target k; [reflexivity|].
  inversion D as [|? ? N D']; subst.
  change (define_all target ((k0, v0) :: l))
    with (define_all (define_prop target k0 v0) l).
  rewrite (IH D'). simpl. rewrite get_own_define.
  destruct (String.eqb k0 k) eqn:E; [|reflexivity].
  apply String.eqb_eq in E. subst k0.
  apply get_own_absent in N. now rewrite N.
Qed.

(** A copy of an object with distinct keys reads like the object. *)
Lemma get_own_copy (o : props) (k : string) :
  distinct_keys o -> get_own (define_all [] o) k = get_own o k.
Proof.
  intro D. rewrite (get_own_define_all o D). now destruct (get_own o k).
Qed.

(** ** Merging records that share an identifier *)


(** A page that holds only an [items] list. *)
Lemma normalize_items_only (rows : list value) :
  normalizeKarakeepPayload (JObj [("items", JArr rows)])
  = page_result (map_values (dedupe (coalesce_rows rows [] None) [])) JNull false.
Proof. reflexivity. Qed.

(** ** Extraction from an envelope *)



(** On a decoded body whose [result] is an object with an own [toString]
    field, [String(res)] raises and so does [parseToolResponse]. *)
Lemma parseToolResponse_raises_on_unprintable :
  parseToolResponse unprintable_envelope
  = Throw (TypeError "Cannot convert object to primitive value").
Proof. reflexivity. Qed.

(** The rescue from text is a heuristic: when the greedy match of braces is
    malformed the bracket pattern is not tried, and the answer is [null]
    although the text holds an array. *)
Lemma rescue_stops_at_malformed_braces :
  parseToolResponse (JStr "x {bad} [1,2]") = Normal JNull.
Proof. vm_compute. reflexivity. Qed.

(** ** Placeholder identifiers *)

Lemma nat_to_string_inj (n m : nat) : nat_to_string n = nat_to_string m -> n = m.
Proof.
  unfold nat_to_string. intro E.
  assert (N : forall k, Nat.to_uint k <> Decimal.Nil).
  { intro k. rewrite <- (DecimalNat.Unsigned.of_to k) at 1.
    rewrite DecimalNat.Unsigned.to_of. apply DecimalFacts.unorm_nonnil. }
  apply DecimalNat.Unsigned.to_uint_inj.
  pose proof (NilZero.usu _ (N n)) as A.
  pose proof (NilZero.usu _ (N m)) as B.
  rewrite E in A. rewrite A in B. now injection B.
Qed.

Lemma placeholder_inj (n m : nat) : placeholder n = placeholder m -> n = m.
Proof.
  unfold placeholder. intro E. injection E as E. now apply nat_to_string_inj.
Qed.

Lemma same_value_zero_eq (a b : value) : same_value_zero a b = true -> a = b.
Proof.
  destruct a, b; simpl; try discriminate; try reflexivity; intro H.
  - now apply Bool.eqb_prop in H; subst.
  - unfold number_eqb in H. apply andb_true_iff in H. destruct H as [H1 H2].
    apply Z.eqb_eq in H1, H2. destruct n, n0. simpl in *. now subst.
  - now apply String.eqb_eq in H; subst.
Qed.

Lemma map_get_none (m : id_map) (k : value) :
  map_get m k = None <-> (forall k0 r0, In (k0, r0) m -> same_value_zero k0 k = false).
Proof.
  induction m as [|[k1 r1] m IH]; simpl.
  - split; [intros _ ? ? [] | reflexivity].
  - destruct (same_value_zero k1 k) eqn:E.
    + split; [discriminate|]. intro H. rewrite (H k1 r1) in E; [discriminate | now left].
    + rewrite IH. split.
      * intros H k0 r0 [[= <- <-]|I]; [exact E | now apply (H k0 r0)].
      * intros H k0 r0 I. apply (H k0 r0). now right.
Qed.

Lemma map_set_new (m : id_map) (k : value) (r : props) :
  map_get m k = None -> map_set m k r = m ++ [(k, r)].
Proof.
  induction m as [|[k1 r1] m IH]; simpl; [reflexivity|].
  destruct (same_value_zero k1 k); [discriminate|].
  intro H. now rewrite (IH H).
Qed.

Lemma map_set_found (m : id_map) (k : value) (r r0 : props) :
  map_get m k = Some r0 ->
  exists m1 m2, m = m1 ++ (k, r0) :: m2 /\ map_set m k r = m1 ++ (k, r) :: m2.
Proof.
  induction m as [|[k1 r1] m IH]; simpl; [discriminate|].
  destruct (same_value_zero k1 k) eqn:E.
  - intros [= ->]. apply same_value_zero_eq in E. subst k1.
    now exists [], m.
  - intro H. destruct (IH H) as [m1 [m2 [-> S]]].
    exists ((k1, r1) :: m1), m2. simpl. now rewrite S.
Qed.

Lemma filter_replace_unmarked {A : Type} (p : A -> bool) (l1 l2 : list A) (x y : A) :
  p x = false -> p y = false ->
  filter p (l1 ++ x :: l2) = filter p (l1 ++ y :: l2).
Proof.
  intros X Y. rewrite !filter_app. simpl. now rewrite X, Y.
Qed.

(** The record stored for [it] carries the identifier of [it]. *)
Lemma merged_identifier (existing it : props) :
  distinct_keys it ->
  get_own it "Bookmark_ID" <> None ->
  get (JObj (define_all (define_all [] existing) it)) "Bookmark_ID"
  = get (JObj it) "Bookmark_ID".
Proof.
  intros D H. unfold get. rewrite (get_own_define_all it D).
  destruct (get_own it "Bookmark_ID"); [reflexivity | contradiction].
Qed.

Lemma copy_identifier (it : props) :
  distinct_keys it ->
  get (JObj (define_all [] it)) "Bookmark_ID" = get (JObj it) "Bookmark_ID".
Proof. intro D. unfold get. now rewrite (get_own_copy it _ D). Qed.

(** One turn of the second loop on a record that carries an identifier other
    than a placeholder: the records without identifier stay as they are. *)
Lemma dedupe_step_identified (m : id_map) (it : props) :
  keys_in_step m -> distinct_keys it ->
  identifier_less it = false ->
  (forall n, get (JObj it) "Bookmark_ID" <> placeholder n) ->
  let id := record_key it m in
  let existing := match map_get m id with Some e => e | None => [] end in
  let m' := map_set m id (spread_into (spread_into [] (JObj existing)) (JObj it)) in
  keys_in_step m'
  /\ filter identifier_less (map_values m') = filter identifier_less (map_values m).
Proof.
  intros [I1 I2] D L P. cbv zeta.
  assert (T : truthy (get (JObj it) "Bookmark_ID") = true).
  { unfold identifier_less in L. now apply negb_false_iff in L. }
  assert (K : record_key it m = get (JObj it) "Bookmark_ID").
  { unfold record_key. now rewrite T. }
  rewrite K. set (id := get (JObj it) "Bookmark_ID") in *.
  assert (O : get_own it "Bookmark_ID" <> None).
  { intro N. unfold id, get in T. rewrite N in T. discriminate T. }
  rewrite !spread_into_object.
  set (r' := define_all (define_all [] _) it).
  assert (L' : identifier_less r' = false).
  { unfold identifier_less, r'. rewrite (merged_identifier _ it D O). fold id.
    now rewrite T. }
  destruct (map_get m id) as [r0|] eqn:G.
  - destruct (map_set_found m id r' r0 G) as [m1 [m2 [E S]]].
    rewrite S. subst m.
    assert (L0 : identifier_less r0 = false).
    { apply (I2 id r0); [apply in_or_app; right; now left | exact P]. }
    split; [split|].
    + intros k r n I Ek. rewrite length_app in *. simpl in *.
      apply in_app_or in I. destruct I as [I|[[= <- <-]|I]].
      * apply (I1 k r n); [apply in_or_app; now left | exact Ek].
      * exfalso. exact (P n Ek).
      * apply (I1 k r n); [apply in_or_app; right; now right | exact Ek].
    + intros k r I N. apply in_app_or in I. destruct I as [I|[[= <- <-]|I]].
      * apply (I2 k r); [apply in_or_app; now left | exact N].
      * exact L'.
      * apply (I2 k r); [apply in_or_app; right; now right | exact N].
    + unfold map_values. rewrite !map_app. simpl.
      now apply filter_replace_unmarked.
  - rewrite (map_set_new m id r' G).
    split; [split|].
    + intros k r n I Ek. rewrite length_app. simpl.
      apply in_app_or in I. destruct I as [I|[[= <- <-]|[]]].
      * pose proof (I1 k r n I Ek). lia.
      * exfalso. exact (P n Ek).
    + intros k r I N. apply in_app_or in I. destruct I as [I|[[= <- <-]|[]]].
      * now apply (I2 k r).
      * exact L'.
    + unfold map_values. rewrite map_app, filter_app. simpl. rewrite L'.
      now rewrite app_nil_r.
Qed.

(** One turn of the second loop on a record without identifier: its
    placeholder is fresh, and its copy is appended alone. *)
Lemma dedupe_step_identifier_less (m : id_map) (it : props) :
  keys_in_step m -> distinct_keys it ->
  identifier_less it = true ->
  let id := record_key it m in
  let existing := match map_get m id with Some e => e | None => [] end in
  let m' := map_set m id (spread_into (spread_into [] (JObj existing)) (JObj it)) in
  keys_in_step m'
  /\ filter identifier_less (map_values m')
     = filter identifier_less (map_values m) ++ [define_all [] it].
Proof.
  intros [I1 I2] D L. cbv zeta.
  assert (T : truthy (get (JObj it) "Bookmark_ID") = false).
  { unfold identifier_less in L. now apply negb_true_iff in L. }
  assert (K : record_key it m = placeholder (List.length m)).
  { unfold record_key. now rewrite T. }
  rewrite K.
  assert (G : map_get m (placeholder (List.length m)) = None).
  { apply map_get_none. intros k0 r0 I.
    destruct (same_value_zero k0 (placeholder (List.length m))) eqn:E; [|reflexivity].
    apply same_value_zero_eq in E. pose proof (I1 k0 r0 _ I E). lia. }
  rewrite G, (map_set_new _ _ _ G), !spread_into_object.
  change (define_all [] []) with (@nil (string * value)).
  assert (L' : identifier_less (define_all [] it) = true).
  { unfold identifier_less. rewrite (copy_identifier it D). now rewrite T. }
  split; [split|].
  - intros k r n I Ek. rewrite length_app. simpl.
    apply in_app_or in I. destruct I as [I|[[= <- <-]|[]]].
    + pose proof (I1 k r n I Ek). lia.
    + apply placeholder_inj in Ek. lia.
  - intros k r I N. apply in_app_or in I. destruct I as [I|[[= <- <-]|[]]].
    + now apply (I2 k r).
    + exfalso. now apply (N (List.length m)).
  - unfold map_values. rewrite map_app, filter_app. simpl. now rewrite L'.
Qed.

Lemma dedupe_keeps_identifier_less (l : list props) :
  Forall distinct_keys l -> no_placeholder_identifier l ->
  forall m, keys_in_step m ->
  filter identifier_less (map_values (dedupe l m))
  = filter identifier_less (map_values m) ++ map (define_all []) (filter identifier_less l).
Proof.
  induction l as [|it l IH]; intros F P m I.
  - simpl. now rewrite app_nil_r.
  - inversion F as [|? ? D F']; subst.
    assert (P' : no_placeholder_identifier l).
    { intros x n Hx. apply P. now right. }
    cbn [dedupe filter].
    destruct (identifier_less it) eqn:L.
    + destruct (dedupe_step_identifier_less m it I D L) as [I' E].
      cbv zeta in I', E. rewrite (IH F' P' _ I'), E.
      now rewrite <- app_assoc.
    + assert (Q : forall n, get (JObj it) "Bookmark_ID" <> placeholder n).
      { intro n. apply P. now left. }
      destruct (dedupe_step_identified m it I D L Q) as [I' E].
      cbv zeta in I', E. now rewrite (IH F' P' _ I'), E.
Qed.

(** X1: where no record carries a placeholder as its identifier, the records
    without identifier are never merged by the deduplication: the items
    without identifier of the result are their copies, one each, in their
    order. *)
Theorem placeholders_unique_without_clash (l : list props) :
  Forall distinct_keys l ->
  no_placeholder_identifier l ->
  filter identifier_less (map_values (dedupe l []))
  = map (define_all []) (filter identifier_less l).
Proof.
  intros F P. rewrite (dedupe_keeps_identifier_less l F P []); [reflexivity|].
  split; intros k r; intros; contradiction.
Qed.

(** ** Normalising a normalised page *)

Lemma sorted_before_middle {A : Type} (R : A -> A -> Prop) (l1 l2 : list A) (x : A) :
  StronglySorted R (l1 ++ x :: l2) -> Forall (fun y => R y x) l1.
Proof.
  induction l1 as [|a l1 IH]; simpl; intro S; [constructor|].
  inversion S as [|? ? S' F]; subst.
  constructor; [|now apply IH].
  rewrite Forall_forall in F. apply F. apply in_or_app. right. now left.
Qed.

Lemma insert_index_last (n : N) (k : string) (v : value) (t : props) :
  Forall (fun k' => key_before k' k) (map fst t) ->
  array_index k = Some n ->
  insert_index n k v t = t ++ [(k, v)].
Proof.
  intros F K.
  induction t as [|[k0 v0] t IH]; simpl; [reflexivity|].
  inversion F as [|? ? B F']; subst.
  unfold key_before in B. simpl in B. rewrite K in B.
  destruct (array_index k0) as [n0|]; [|contradiction].
  assert (E : (n <? n0)%N = false) by (apply N.ltb_ge; lia).
  rewrite E. now rewrite (IH F').
Qed.

(** Defining the entries of a canonical object one by one rebuilds it. *)
Lemma define_all_canonical (l t : props) :
  canonical (t ++ l) -> define_all t l = t ++ l.
Proof.
  revert t.
  induction l as [|[k v] l IH]; intros t [D S]; [now rewrite app_nil_r|].
  change (define_all t ((k, v) :: l)) with (define_all (define_prop t k v) l).
  assert (H : has_own t k = false).
  { unfold distinct_keys in D. rewrite map_app in D. simpl in D.
    apply NoDup_remove_2 in D.
    assert (N : ~ In k (map fst t)) by (intro I; apply D; apply in_or_app; now left).
    apply get_own_absent in N. unfold has_own. now rewrite N. }
  assert (E : define_prop t k v = t ++ [(k, v)]).
  { unfold define_prop. rewrite H.
    destruct (array_index k) as [n|] eqn:K; [|reflexivity].
    apply insert_index_last; [|exact K].
    rewrite map_app in S. simpl in S. exact (sorted_before_middle _ _ _ _ S). }
  rewrite E, IH; rewrite <- app_assoc; [reflexivity | now split].
Qed.

Lemma copy_canonical (o : props) : canonical o -> define_all [] o = o.
Proof. intro C. now apply (define_all_canonical o []). Qed.

(** The first loop on rows that all carry [Bookmark_ID]: nothing is folded. *)
Lemma coalesce_whole_records (l : list props) :
  Forall canonical l ->
  Forall (fun it => has_own it "Bookmark_ID" = true) l ->
  forall coalesced current,
    coalesce_rows (map JObj l) coalesced current = push_current coalesced current ++ l.
Proof.
  induction l as [|it l IH]; intros C H coalesced current; simpl.
  - now rewrite app_nil_r.
  - inversion C as [|? ? Cit C']; inversion H as [|? ? Hit H']; subst.
    rewrite Hit. simpl. rewrite (IH C' H'). simpl.
    rewrite spread_into_object, (copy_canonical it Cit).
    now rewrite <- app_assoc.
Qed.

(** The second loop on a deduplicated list: every record opens an entry of
    its own. *)
Lemma dedupe_all_fresh (l : list props) :
  Forall canonical l -> no_placeholder_identifier l ->
  ForallOrdPairs identifiers_differ l ->
  forall m,
    (forall k r n, In (k, r) m -> k = placeholder n -> n < List.length m) ->
    (forall it k r, In it l -> identifier_less it = false -> In (k, r) m ->
                    same_value_zero k (get (JObj it) "Bookmark_ID") = false) ->
    map_values (dedupe l m) = map_values m ++ l.
Proof.
  induction l as [|it l IH]; intros C P O m I1 X.
  - simpl. now rewrite app_nil_r.
  - inversion C as [|? ? Cit C']; subst.
    inversion O as [|? ? Oit O']; subst.
    assert (P' : no_placeholder_identifier l) by (intros x n Hx; apply P; now right).
    cbn [dedupe].
    set (id := record_key it m).
    assert (G : map_get m id = None).
    { apply map_get_none. intros k0 r0 I. unfold id, record_key.
      destruct (truthy (get (JObj it) "Bookmark_ID")) eqn:T.
      - apply (X it k0 r0); [now left | | exact I].
        unfold identifier_less. now rewrite T.
      - destruct (same_value_zero k0 (placeholder (List.length m))) eqn:E; [|reflexivity].
        apply same_value_zero_eq in E. pose proof (I1 k0 r0 _ I E). lia. }
    rewrite G, (map_set_new _ _ _ G), !spread_into_object.
    change (define_all [] []) with (@nil (string * value)).
    rewrite (copy_canonical it Cit), IH; try assumption.
    + unfold map_values. rewrite map_app. simpl. now rewrite <- app_assoc.
    + intros k r n I Ek. rewrite length_app. simpl.
      apply in_app_or in I. destruct I as [I|[[= <- <-]|[]]].
      * pose proof (I1 k r n I Ek). lia.
      * unfold id, record_key in Ek.
        destruct (truthy (get (JObj it) "Bookmark_ID")).
        -- exfalso. apply (P it n); [now left | exact Ek].
        -- apply placeholder_inj in Ek. lia.
    + intros it' k r Hit' L' I.
      apply in_app_or in I. destruct I as [I|[[= <- <-]|[]]].
      * apply (X it' k r); [now right | exact L' | exact I].
      * unfold id, record_key.
        destruct (truthy (get (JObj it) "Bookmark_ID")) eqn:T.
        -- rewrite Forall_forall in Oit. apply (Oit it' Hit'); [|exact L'].
           unfold identifier_less. now rewrite T.
        -- destruct (same_value_zero (placeholder (List.length m))
                                     (get (JObj it') "Bookmark_ID")) eqn:E; [|reflexivity].
           apply same_value_zero_eq in E. exfalso.
           apply (P it' (List.length m)); [now right | now symmetry].
Qed.

(** X2: where no identifier is a placeholder, normalising is idempotent on
    the items: a page whose records are canonical, own [Bookmark_ID] and have
    pairwise different identifiers comes back with the same items. *)
Theorem normalize_idempotent_without_clash (l : list props) (nextCursor : value) (hasMore : bool) :
  deduplicated l ->
  items_of (normalizeKarakeepPayload (page_result l nextCursor hasMore))
  = JArr (map JObj l).
Proof.
  intros [C [H [P O]]].
  unfold normalizeKarakeepPayload, page_result, items_of. cbn [truthy typeof jstype_eqb negb orb].
  cbn [get get_own String.eqb Ascii.eqb Bool.eqb].
  rewrite (coalesce_whole_records l C H). cbn [push_current app].
  rewrite (dedupe_all_fresh l C P O []).
  - reflexivity.
  - intros k r n [].
  - intros it k r _ _ [].
Qed.

Lemma placeholder_head (n : nat) : exists s, placeholder n = JStr (String "t" s).
Proof. unfold placeholder. simpl. eauto. Qed.

(** X2, at a page of three records, one of them without identifier. *)
Lemma normalize_idempotent_example :
  items_of (normalizeKarakeepPayload (page_result settled_items (JStr "5") true))
  = JArr (map JObj settled_items).
Proof.
  apply normalize_idempotent_without_clash.
  unfold deduplicated, settled_items. repeat split.
  - repeat constructor; unfold distinct_keys; simpl;
      try (intros [?|?]; try discriminate; intuition discriminate);
      try (intuition discriminate).
  - repeat constructor.
  - intros it n I E.
    destruct (placeholder_head n) as [s Hs]. rewrite Hs in E.
    simpl in I. destruct I as [<-|[<-|[<-|[]]]]; discriminate E.
  - repeat constructor; intros; reflexivity || discriminate.
Defined.

(** X1, at the same three records. *)
Lemma placeholders_unique_without_clash_witness :
  filter identifier_less (map_values (dedupe settled_items []))
  = map (define_all []) (filter identifier_less settled_items).
Proof.
  apply placeholders_unique_without_clash.
  - unfold settled_items.
    repeat constructor; unfold distinct_keys; simpl;
      try (intros [?|?]; try discriminate; intuition discriminate);
      try (intuition discriminate).
  - intros it n I E.
    destruct (placeholder_head n) as [s Hs]. rewrite Hs in E.
    simpl in I. destruct I as [<-|[<-|[<-|[]]]]; discriminate E.
Defined.

(** * Further properties of the code *)

(** ** What the handler sends *)

Lemma normalize_is_page (raw : value) :
  exists items nextCursor hasMore,
    normalizeKarakeepPayload raw = page_result items nextCursor hasMore.
Proof.
  unfold normalizeKarakeepPayload.
  destruct (negb (truthy raw) || negb (jstype_eqb (typeof raw) TObject)); eauto.
Qed.

Lemma parseKVBlocks_null_or_object (t : string) :
  parseKVBlocks t = JNull \/ exists o, parseKVBlocks t = JObj o.
Proof.
  unfold parseKVBlocks.
  destruct ((0 <? _)%nat || _); [right; eauto | now left].
Qed.

Lemma input2JSON_container (raw : value) : is_container (input2JSON raw) = true.
Proof.
  unfold input2JSON.
  destruct (is_nullish raw) eqn:N; [reflexivity|].
  destruct (jstype_eqb (typeof raw) TObject) eqn:T.
  - destruct raw; try discriminate; reflexivity.
  - destruct (truthy_object (parsed _)) eqn:P.
    + now rewrite <- truthy_object_is_container.
    + destruct (parseKVBlocks_null_or_object
                  (text (unwrapDeepJSONString (primitive_to_string raw)))) as [E|[o E]];
        rewrite E; reflexivity.
Qed.

Lemma normalizeToolPayload_container (parsed : value) (path : string) :
  is_container (normalizeToolPayload parsed path) = true.
Proof.
  unfold normalizeToolPayload.
  destruct (truthy_object parsed) eqn:T; [|apply input2JSON_container].
  destruct (isKaraKeepBookmarksPath path || _).
  - destruct (normalize_is_page parsed) as [i [c [h E]]]. now rewrite E.
  - now rewrite <- truthy_object_is_container.
Qed.

(** The value [normalizeToolPayload] receives in the handler: the extracted
    container, or the fallback, a container too. *)
Lemma process_body_steps (path bodyStr : string) :
  exists parsed,
    truthy_object parsed = true
    /\ process_body path bodyStr = Normal (normalizeToolPayload parsed path).
Proof.
  unfold process_body. rewrite parseToolResponse_string. cbn [bind].
  set (clean := stripDebugBlocks bodyStr).
  destruct (extract_null_or_container (JStr clean)) as [E|E].
  - rewrite E. simpl negb. cbv iota.
    exists (input2JSON (JStr clean)). split; [|reflexivity].
    rewrite truthy_object_is_container. apply input2JSON_container.
  - assert (T : truthy (extractFirstJSONObjectFromText (JStr clean)) = true).
    { destruct (extractFirstJSONObjectFromText (JStr clean)); try discriminate E; reflexivity. }
    rewrite T. simpl negb. cbv iota.
    eexists. split; [|reflexivity]. now rewrite truthy_object_is_container.
Qed.

(** X3: when the upstream call answers, whatever its status and body, the
    handler answers with that same status and with a JSON container (an
    object or an array), never with a bare string or another primitive, and
    never with a status of its own. *)
Theorem handler_mirrors_upstream (path : string) (startedAt now status : Z) (bodyStr : string) :
  exists payload : value,
    handler path startedAt now (Responded status bodyStr)
    = Normal {| Router.status := status; json := payload |}
    /\ is_container payload = true.
Proof.
  destruct (process_body_steps path bodyStr) as [parsed [_ E]].
  unfold handler, try_block. rewrite E. cbn [bind].
  eexists. split; [reflexivity|]. apply normalizeToolPayload_container.
Qed.

(** X4: on a path that matches the search-bookmarks pattern the payload is
    a page result [{ items, nextCursor, hasMore }] for every upstream body:
    JSON, wrapped JSON, key/value text or free text. *)
Theorem bookmarks_path_always_pages (path bodyStr : string) :
  isKaraKeepBookmarksPath path = true ->
  exists items nextCursor hasMore,
    process_body path bodyStr = Normal (page_result items nextCursor hasMore).
Proof.
  intro K.
  destruct (process_body_steps path bodyStr) as [parsed [T E]].
  rewrite E. unfold normalizeToolPayload. rewrite T, K. simpl orb. cbv iota.
  destruct (normalize_is_page parsed) as [i [c [h N]]]. rewrite N. eauto.
Qed.

(** X4, on free text sent to a search path: an empty page. *)
Lemma bookmarks_path_always_pages_witness :
  exists items nextCursor hasMore,
    process_body "/tool_search_bookmarks_post" "no bookmarks found"
    = Normal (page_result items nextCursor hasMore).
Proof.
  apply (bookmarks_path_always_pages "/tool_search_bookmarks_post" "no bookmarks found").
  vm_compute. reflexivity.
Defined.

(** ** Pagination of a page that is normalised again *)

Lemma find_token_settled (c : value) :
  (c = JNull \/ exists s, c = JStr s /\ is_empty (trim s) = false) ->
  find_token [c; JUndefined; JUndefined; JUndefined; JUndefined] = c.
Proof.
  intros [->|[s [-> B]]]; [reflexivity|].
  unfold find_token. simpl. rewrite B. simpl.
  destruct s; [discriminate B | reflexivity].
Qed.

(** X5: the pagination pair is stable under the normaliser for every input:
    normalising the result of a normalisation gives the same [nextCursor]
    and the same [hasMore]. *)
Theorem normalize_pagination_idempotent (raw : value) :
  let page := normalizeKarakeepPayload raw in
  get (normalizeKarakeepPayload page) "nextCursor" = get page "nextCursor"
  /\ get (normalizeKarakeepPayload page) "hasMore" = get page "hasMore".
Proof.
  cbv zeta.
  assert (S : exists items c h,
             normalizeKarakeepPayload raw = page_result items c h
             /\ (c = JNull \/ exists s, c = JStr s /\ is_empty (trim s) = false)).
  { unfold normalizeKarakeepPayload.
    destruct (negb (truthy raw) || negb (jstype_eqb (typeof raw) TObject)).
    - exists [], JNull, false. split; [reflexivity | now left].
    - eexists _, _, _. split; [reflexivity|]. apply find_token_cases. }
  destruct S as [items [c [h [E C]]]]. rewrite E.
  unfold normalizeKarakeepPayload at 1 2, page_result.
  cbn [truthy typeof jstype_eqb negb orb].
  cbn [get get_own String.eqb Ascii.eqb Bool.eqb].
  rewrite (find_token_settled c C). split; reflexivity.
Qed.

(** ** The deep unwrap *)

(** X6: whatever the text, the value [unwrapDeepJSONString] reports as
    parsed is never a string, and when it is not [null] it is the JSON
    decoding of the text reported beside it. *)
Theorem unwrap_reports_decoding (raw : string) :
  let u := unwrapDeepJSONString raw in
  (forall s, parsed u <> JStr s)
  /\ (parsed u <> JNull -> JSON_parse (text u) = Some (parsed u)).
Proof.
  cbv zeta. unfold unwrapDeepJSONString.
  generalize maxDepth_default as n. intro n. revert raw.
  induction n as [|n IH]; intro raw; simpl.
  - split; [discriminate | intro H; now elim H].
  - rewrite tryParseJSON_string.
    destruct (JSON_parse raw) as [v|] eqn:P.
    + destruct v; try apply IH; simpl; (split; [discriminate|]); intro H;
        try exact P; now elim H.
    + simpl. split; [discriminate | intro H; now elim H].
Qed.

(** ** The key/value fallback *)

Lemma fold_left_keeps {A B : Type} (P : A -> Prop) (f : A -> B -> A) (l : list B) :
  (forall a b, P a -> P (f a b)) -> forall a, P a -> P (fold_left f l a).
Proof.
  intro H. induction l as [|b l IH]; intros a Pa; simpl; auto.
Qed.

Lemma flush_settled (st : kv_state) : kv_settled st -> kv_settled (flush st).
Proof.
  intros [I C]. split; [|exact C].
  unfold flush, has_keys. cbn [items].
  destruct (current st) as [c|]; [|exact I].
  destruct (own c) as [|e o]; simpl; [exact I|].
  apply Forall_app. split; [exact I|]. constructor; [|constructor].
  discriminate.
Qed.

Lemma kv_step_settled (st : kv_state) (rawLine : string) :
  kv_settled st -> kv_settled (kv_step st rawLine).
Proof.
  intro S. unfold kv_step.
  destruct (match_kv_line rawLine) as [m|]; [|exact S].
  destruct (is_next_cursor (trim (m2 m))).
  - destruct S as [I _]. split; [exact I|]. right. eexists. split; reflexivity.
  - destruct ((String.length (m1 m) =? 0)%nat && has_keys (current st)).
    + destruct (flush_settled st S) as [I C]. split; [exact I | exact C].
    + destruct S as [I C]. split; [exact I | exact C].
Qed.

(** X7: [parseKVBlocks] returns [null] or an object
    [{ items, cursor, hasMore }] in which no item is an empty record, there
    is an item or a cursor, and [hasMore] is true exactly when the cursor is
    a string other than the empty string and ["0"]. *)
Theorem parseKVBlocks_shape (t : string) :
  parseKVBlocks t = JNull
  \/ exists (records : list props) (cur : value) (more : bool),
       parseKVBlocks t
       = JObj [("items", JArr (map JObj records)); ("cursor", cur); ("hasMore", JBool more)]
       /\ Forall (fun r : props => r <> []) records
       /\ (records <> [] \/ cur <> JNull)
       /\ (more = true <->
           exists c, cur = JStr c /\ c <> EmptyString /\ c <> "0").
Proof.
  unfold parseKVBlocks.
  set (st := flush _).
  assert (S : kv_settled st).
  { apply flush_settled. apply fold_left_keeps; [exact kv_step_settled|].
    split; [constructor | left; split; reflexivity]. }
  destruct ((0 <? List.length (items st))%nat
            || match cursor st with Some _ => true | None => false end) eqn:G;
    [right | now left].
  destruct S as [I C].
  eexists _, _, _. split; [reflexivity|]. split; [exact I|]. split.
  - apply orb_true_iff in G. destruct G as [G|G].
    + left. intro E. rewrite E in G. discriminate G.
    + right. destruct (cursor st); [discriminate | discriminate G].
  - destruct C as [[C H]|[c [C H]]]; rewrite C, H.
    + split; [discriminate | intros [c [E _]]; discriminate E].
    + split.
      * intro M. exists c. split; [reflexivity|].
        apply andb_true_iff in M. destruct M as [M1 M2].
        apply negb_true_iff in M1, M2. apply String.eqb_neq in M1, M2. now split.
      * intros [c' [[= <-] [N1 N2]]].
        apply String.eqb_neq in N1, N2. now rewrite N1, N2.
Qed.

Lemma cons_head_without (c a : ascii) (l : list string) :
  Ascii.eqb c a = false ->
  Forall (fun line => occurs c line = false) l ->
  Forall (fun line => occurs c line = false) (cons_head a l).
Proof.
  unfold occurs. intros Ea F. destruct l as [|h t]; simpl.
  - constructor; [simpl; now rewrite Ea | constructor].
  - inversion F; subst. constructor; [simpl; now rewrite Ea | assumption].
Qed.

Lemma split_lines_without (c : ascii) (s : string) :
  occurs c s = false -> Forall (fun line => occurs c line = false) (split_lines s).
Proof.
  assert (G : forall n s, String.length s <= n -> occurs c s = false ->
                          Forall (fun line => occurs c line = false) (split_lines s)).
  { clear s. induction n as [|n IH]; intros s L O.
    - destruct s; [|simpl in L; lia]. constructor; [reflexivity | constructor].
    - destruct s as [|a s]; [constructor; [reflexivity | constructor]|].
      simpl in L. unfold occurs in O. simpl in O.
      apply orb_false_iff in O. destruct O as [Ea O].
      assert (R : Forall (fun line => occurs c line = false) (split_lines s))
        by (apply IH; [lia | exact O]).
      simpl.
      destruct (Ascii.eqb a LF); [constructor; [reflexivity | exact R]|].
      destruct (Ascii.eqb a CR); [|now apply cons_head_without].
      destruct s as [|d s']; [now apply cons_head_without|].
      destruct (Ascii.eqb d LF); [|now apply cons_head_without].
      constructor; [reflexivity|].
      simpl in O. apply orb_false_iff in O. destruct O as [_ O].
      apply IH; [simpl in L; lia | exact O]. }
  exact (G (String.length s) s (le_n _)).
Qed.

Lemma cut_at_colon_without (s : string) :
  occurs ":" s = false -> cut_at_colon s = None.
Proof.
  unfold occurs. induction s as [|a s IH]; [reflexivity|].
  cbn [string_exists cut_at_colon].
  intro O. apply orb_false_iff in O. destruct O as [Ea O].
  rewrite Ascii.eqb_sym in Ea. rewrite Ea, (IH O). reflexivity.
Qed.

(** Lines without a colon leave the variables of the loop as they are. *)
Lemma kv_fold_without_colon (lines : list string) (st : kv_state) :
  Forall (fun line => occurs ":" line = false) lines ->
  fold_left kv_step lines st = st.
Proof.
  revert st. induction lines as [|l lines IH]; intros st F; [reflexivity|].
  inversion F as [|? ? Hl F']; subst. simpl.
  unfold kv_step at 2. unfold match_kv_line.
  rewrite (cut_at_colon_without l Hl). now apply IH.
Qed.

Lemma parseKVBlocks_without_colon (t : string) :
  occurs ":" t = false -> parseKVBlocks t = JNull.
Proof.
  intro O. unfold parseKVBlocks.
  rewrite (kv_fold_without_colon _ _ (split_lines_without ":" t O)). reflexivity.
Qed.

(** X8: a text that is not JSON and holds no colon comes back from
    [input2JSON] whole, in the wrapper [{ text }]: nothing of it is parsed
    or dropped. *)
Theorem input2JSON_plain_text (s : string) :
  JSON_parse s = None ->
  occurs ":" s = false ->
  input2JSON (JStr s) = text_wrapper s.
Proof.
  intros P O. unfold input2JSON, unwrapDeepJSONString, maxDepth_default.
  cbn [is_nullish typeof jstype_eqb primitive_to_string ToString unwrap_loop].
  rewrite tryParseJSON_string, P. cbn [parsed text].
  rewrite (parseKVBlocks_without_colon s O). reflexivity.
Qed.

(** X8, on a sentence. *)
Lemma input2JSON_plain_text_witness :
  input2JSON (JStr "No bookmarks found.") = text_wrapper "No bookmarks found.".
Proof.
  apply input2JSON_plain_text; vm_compute; reflexivity.
Defined.

(** ** The sanitizer *)

Lemma after_first_ci_tail (needle : string) (c : ascii) (s : string) :
  after_first_ci needle (String c s) = None -> after_first_ci needle s = None.
Proof.
  simpl. destruct (strip_prefix_ci needle (String c s)); [discriminate | auto].
Qed.

Lemma after_first_ci_after_prefix (needle p : string) :
  forall s r, strip_prefix_ci p s = Some r ->
              after_first_ci needle s = None -> after_first_ci needle r = None.
Proof.
  induction p as [|a p IH]; intros s r H N; simpl in H.
  - now injection H as <-.
  - destruct s as [|b s]; [discriminate|].
    destruct (Ascii.eqb (to_lower a) (to_lower b)); [|discriminate].
    apply (IH s r H). now apply after_first_ci_tail in N.
Qed.

Lemma after_first_ci_after_char (needle : string) (c : ascii) :
  forall s r, after_char c s = Some r ->
              after_first_ci needle s = None -> after_first_ci needle r = None.
Proof.
  induction s as [|a s IH]; intros r H N; simpl in H; [discriminate|].
  apply after_first_ci_tail in N.
  destruct (Ascii.eqb a c); [now injection H as <- | now apply IH].
Qed.

Lemma match_details_needs_closing (s : string) :
  after_first_ci "</details>" s = None -> match_details s = None.
Proof.
  intro N. unfold match_details.
  destruct (strip_prefix_ci "<details" s) as [r|] eqn:P; [|reflexivity].
  destruct (after_char ">" r) as [body|] eqn:A; [|reflexivity].
  apply (after_first_ci_after_char _ _ r body A).
  exact (after_first_ci_after_prefix _ _ s r P N).
Qed.

(** X9: a text in which no closing [</details>] tag occurs, in any letter
    case, is returned unchanged by [stripDebugBlocks]: a debug block that is
    opened and never closed stays in the text. *)
Theorem stripDebugBlocks_needs_closing_tag (html : string) :
  after_first_ci "</details>" html = None ->
  stripDebugBlocks html = html.
Proof.
  unfold stripDebugBlocks. generalize (String.length html) as fuel.
  intro fuel. revert html.
  induction fuel as [|f IH]; intros s N; [reflexivity|].
  destruct s as [|c s]; [reflexivity|].
  cbn [strip_loop]. rewrite (match_details_needs_closing _ N).
  rewrite IH; [reflexivity | exact (after_first_ci_tail _ _ _ N)].
Qed.

(** X9, on a block that is never closed. *)
Lemma stripDebugBlocks_needs_closing_tag_witness :
  stripDebugBlocks "answer <details>internal reasoning"
  = "answer <details>internal reasoning".
Proof.
  apply stripDebugBlocks_needs_closing_tag. vm_compute. reflexivity.
Defined.

Lemma length_append (a b : string) :
  String.length (a ++ b)%string = String.length a + String.length b.
Proof. induction a as [|c a IH]; simpl; [reflexivity | now rewrite IH]. Qed.

Lemma strip_prefix_ci_length (p : string) :
  forall s r, strip_prefix_ci p s = Some r ->
              String.length s = String.length p + String.length r.
Proof.
  induction p as [|a p IH]; intros s r H; simpl in H.
  - now injection H as <-.
  - destruct s as [|b s]; [discriminate|].
    destruct (Ascii.eqb (to_lower a) (to_lower b)); [|discriminate].
    simpl. now rewrite (IH s r H).
Qed.

Lemma after_char_length (c : ascii) :
  forall s r, after_char c s = Some r -> String.length r < String.length s.
Proof.
  induction s as [|a s IH]; intros r H; simpl in H; [discriminate|].
  destruct (Ascii.eqb a c).
  - injection H as <-. simpl. lia.
  - specialize (IH r H). simpl. lia.
Qed.

Lemma after_first_ci_length (needle : string) :
  forall s r, after_first_ci needle s = Some r -> String.length r <= String.length s.
Proof.
  induction s as [|a s IH]; intros r H; simpl in H.
  - destruct (strip_prefix_ci needle EmptyString) as [x|] eqn:P; [|discriminate].
    injection H as <-. apply strip_prefix_ci_length in P. lia.
  - destruct (strip_prefix_ci needle (String a s)) as [x|] eqn:P.
    + injection H as <-. apply strip_prefix_ci_length in P. lia.
    + specialize (IH r H). simpl. lia.
Qed.

Lemma match_details_shorter (s r : string) :
  match_details s = Some r -> String.length r < String.length s.
Proof.
  unfold match_details.
  destruct (strip_prefix_ci "<details" s) as [x|] eqn:P; [|discriminate].
  destruct (after_char ">" x) as [body|] eqn:A; [|discriminate].
  intro F. apply strip_prefix_ci_length in P. apply after_char_length in A.
  apply after_first_ci_length in F. lia.
Qed.

(** The replace loop does not depend on its fuel once the fuel covers the
    text. *)
Lemma strip_loop_fuel (f1 : nat) :
  forall f2 s, String.length s <= f1 -> String.length s <= f2 ->
               strip_loop f1 s = strip_loop f2 s.
Proof.
  induction f1 as [|f1 IH]; intros f2 s L1 L2.
  - destruct s; [|simpl in L1; lia]. now destruct f2.
  - destruct s as [|c s]; [now destruct f2|].
    destruct f2 as [|f2]; [simpl in L2; lia|].
    cbn [strip_loop].
    destruct (match_details (String c s)) as [r|] eqn:M.
    + apply match_details_shorter in M. simpl in M, L1, L2. apply IH; lia.
    + simpl in L1, L2. f_equal. apply IH; lia.
Qed.

Lemma to_lower_is_lt (c : ascii) : Ascii.eqb "<" (to_lower c) = Ascii.eqb "<" c.
Proof. destruct c as [[] [] [] [] [] [] [] []]; reflexivity. Qed.

Lemma no_tag_at (c : ascii) (s p : string) :
  Ascii.eqb "<" c = false -> strip_prefix_ci (String "<" p) (String c s) = None.
Proof.
  intro E. cbn [strip_prefix_ci].
  change (to_lower "<") with "<"%char. now rewrite to_lower_is_lt, E.
Qed.

Lemma strip_loop_plain_prefix (pre : string) :
  forall f rest, occurs "<" pre = false ->
                 strip_loop (String.length pre + f) (pre ++ rest)
                 = (pre ++ strip_loop f rest)%string.
Proof.
  unfold occurs.
  induction pre as [|c pre IH]; intros f rest O; [reflexivity|].
  cbn [string_exists] in O. apply orb_false_iff in O. destruct O as [E O].
  cbn [String.length Nat.add append strip_loop].
  unfold match_details. rewrite (no_tag_at c _ "details" E).
  now rewrite (IH f rest O).
Qed.

Lemma after_char_skips (c : ascii) (a rest : string) :
  occurs c a = false -> after_char c (a ++ String c rest) = Some rest.
Proof.
  unfold occurs.
  induction a as [|x a IH]; intro O.
  - simpl. now rewrite Ascii.eqb_refl.
  - cbn [string_exists] in O. apply orb_false_iff in O. destruct O as [E O].
    cbn [append after_char]. rewrite Ascii.eqb_sym, E. now apply IH.
Qed.

Lemma closing_tag_found (body post : string) :
  occurs "<" body = false ->
  after_first_ci "</details>" (body ++ "</details>" ++ post) = Some post.
Proof.
  unfold occurs.
  induction body as [|c body IH]; intro O; [reflexivity|].
  cbn [string_exists] in O. apply orb_false_iff in O. destruct O as [E O].
  cbn [append]. cbn [after_first_ci].
  rewrite (no_tag_at c _ "/details>" E). now apply IH.
Qed.

(** X10: a block [<details ...>...</details>] whose body holds no [<] is
    removed whole, attributes included, and the text before it is kept when
    it holds no [<]; the rest of the text is cleaned in turn. *)
Theorem stripDebugBlocks_removes_block (pre attrs body post : string) :
  occurs "<" pre = false ->
  occurs ">" attrs = false ->
  occurs "<" body = false ->
  stripDebugBlocks (pre ++ "<details" ++ attrs ++ ">" ++ body ++ "</details>" ++ post)
  = (pre ++ stripDebugBlocks post)%string.
Proof.
  intros Opre Oattrs Obody. unfold stripDebugBlocks.
  set (block := ("<details" ++ attrs ++ ">" ++ body ++ "</details>" ++ post)%string).
  assert (M : match_details block = Some post).
  { unfold block, match_details.
    replace (strip_prefix_ci "<details"
               ("<details" ++ attrs ++ ">" ++ body ++ "</details>" ++ post))
      with (Some (attrs ++ String ">" (body ++ "</details>" ++ post))%string)
      by reflexivity.
    rewrite (after_char_skips ">" attrs _ Oattrs).
    now apply closing_tag_found. }
  pose proof (match_details_shorter _ _ M) as L.
  rewrite (strip_loop_fuel _ (String.length pre + String.length block));
    [|lia | rewrite length_append; lia].
  rewrite (strip_loop_plain_prefix pre _ block Opre). f_equal.
  destruct (String.length block) as [|f] eqn:B; [lia|].
  assert (N : exists t, block = String "<" t) by (unfold block; simpl; eauto).
  destruct N as [t N]. rewrite N in *.
  cbn [strip_loop]. rewrite M.
  apply strip_loop_fuel; lia.
Qed.

(** X10, on a leaked block with an attribute. *)
Lemma stripDebugBlocks_removes_block_witness :
  stripDebugBlocks "Result: <details open>chain of thought</details>done"
  = "Result: done".
Proof.
  apply (stripDebugBlocks_removes_block "Result: " " open" "chain of thought" "done");
    vm_compute; reflexivity.
Defined.

(** ** The path heuristic *)

Lemma to_lower_idem (c : ascii) : to_lower (to_lower c) = to_lower c.
Proof. destruct c as [[] [] [] [] [] [] [] []]; reflexivity. Qed.

Lemma to_lower_separator (c : ascii) :
  Ascii.eqb (to_lower c) "_" || Ascii.eqb (to_lower c) "-"
  = Ascii.eqb c "_" || Ascii.eqb c "-".
Proof. destruct c as [[] [] [] [] [] [] [] []]; reflexivity. Qed.

Lemma lowercase_append (a b : string) :
  lowercase (a ++ b) = (lowercase a ++ lowercase b)%string.
Proof. induction a as [|c a IH]; simpl; [reflexivity | now rewrite IH]. Qed.

Lemma strip_prefix_ci_lowercase (p : string) :
  forall s, strip_prefix_ci p (lowercase s) = option_map lowercase (strip_prefix_ci p s).
Proof.
  induction p as [|a p IH]; intro s; [reflexivity|].
  destruct s as [|b s]; [reflexivity|].
  cbn [lowercase strip_prefix_ci]. rewrite to_lower_idem.
  destruct (Ascii.eqb (to_lower a) (to_lower b)); [apply IH | reflexivity].
Qed.

Lemma strip_prefix_ci_spelling (p : string) :
  forall s r, strip_prefix_ci p s = Some r ->
              lowercase s = (lowercase p ++ lowercase r)%string.
Proof.
  induction p as [|a p IH]; intros s r H; simpl in H.
  - now injection H as <-.
  - destruct s as [|b s]; [discriminate|].
    destruct (Ascii.eqb (to_lower a) (to_lower b)) eqn:E; [|discriminate].
    apply Ascii.eqb_eq in E. simpl. now rewrite E, (IH s r H).
Qed.

Lemma match_search_bookmarks_lowercase (s : string) :
  match_search_bookmarks (lowercase s) = match_search_bookmarks s.
Proof.
  unfold match_search_bookmarks. rewrite strip_prefix_ci_lowercase.
  destruct (strip_prefix_ci "search" s) as [r|]; [|reflexivity].
  cbn [option_map].
  destruct r as [|c t]; [reflexivity|].
  cbn [lowercase]. rewrite to_lower_separator.
  destruct (Ascii.eqb c "_" || Ascii.eqb c "-").
  - rewrite strip_prefix_ci_lowercase.
    now destruct (strip_prefix_ci "bookmarks" t).
  - change (String (to_lower c) (lowercase t)) with (lowercase (String c t)).
    rewrite strip_prefix_ci_lowercase.
    now destruct (strip_prefix_ci "bookmarks" (String c t)).
Qed.

Lemma isKaraKeepBookmarksPath_lowercase (path : string) :
  isKaraKeepBookmarksPath (lowercase path) = isKaraKeepBookmarksPath path.
Proof.
  induction path as [|c path IH].
  - reflexivity.
  - change (lowercase (String c path)) with (String (to_lower c) (lowercase path)).
    cbn [isKaraKeepBookmarksPath].
    change (String (to_lower c) (lowercase path)) with (lowercase (String c path)).
    now rewrite match_search_bookmarks_lowercase, IH.
Qed.

Lemma isKaraKeepBookmarksPath_suffix (pre s : string) :
  match_search_bookmarks s = true -> isKaraKeepBookmarksPath (pre ++ s) = true.
Proof.
  intro M. induction pre as [|c pre IH].
  - destruct s; cbn [append isKaraKeepBookmarksPath]; rewrite M; reflexivity.
  - cbn [append isKaraKeepBookmarksPath]. rewrite IH. apply orb_true_r.
Qed.

Lemma isKaraKeepBookmarksPath_found (path : string) :
  isKaraKeepBookmarksPath path = true ->
  exists pre s, path = (pre ++ s)%string /\ match_search_bookmarks s = true.
Proof.
  induction path as [|c path IH]; intro H.
  - discriminate H.
  - cbn [isKaraKeepBookmarksPath] in H. apply orb_true_iff in H.
    destruct H as [H|H].
    + now exists EmptyString, (String c path).
    + destruct (IH H) as [pre [s [E M]]].
      exists (String c pre), s. split; [simpl; now rewrite E | exact M].
Qed.

Lemma match_search_bookmarks_spelling (s : string) :
  match_search_bookmarks s = true ->
  exists m post, lowercase s = (m ++ post)%string /\ bookmarks_marker m.
Proof.
  unfold match_search_bookmarks.
  destruct (strip_prefix_ci "search" s) as [r|] eqn:P; [|discriminate].
  apply strip_prefix_ci_spelling in P.
  destruct r as [|c t].
  - destruct (strip_prefix_ci "bookmarks" EmptyString) eqn:B; [|discriminate].
    discriminate B.
  - destruct (Ascii.eqb c "_" || Ascii.eqb c "-") eqn:S.
    + destruct (strip_prefix_ci "bookmarks" t) as [x|] eqn:B; [|discriminate].
      intros _. apply strip_prefix_ci_spelling in B.
      apply orb_true_iff in S. destruct S as [S|S]; apply Ascii.eqb_eq in S; subst c;
        simpl in P; rewrite B in P; simpl in P.
      * exists "search_bookmarks", (lowercase x). split; [exact P|]. right. now left.
      * exists "search-bookmarks", (lowercase x). split; [exact P|]. right. now right.
    + destruct (strip_prefix_ci "bookmarks" (String c t)) as [x|] eqn:B; [|discriminate].
      intros _. apply strip_prefix_ci_spelling in B.
      rewrite B in P. simpl in P.
      exists "searchbookmarks", (lowercase x). split; [exact P|]. now left.
Qed.

(** X11: [isKaraKeepBookmarksPath] holds exactly of the paths that, put in
    lower case, contain [searchbookmarks], [search_bookmarks] or
    [search-bookmarks]; the letter case of the path and what stands around
    the marker do not matter. *)
Theorem isKaraKeepBookmarksPath_spec (path : string) :
  isKaraKeepBookmarksPath path = true
  <-> exists pre m post,
        lowercase path = (pre ++ m ++ post)%string /\ bookmarks_marker m.
Proof.
  split.
  - intro H. destruct (isKaraKeepBookmarksPath_found path H) as [pre [s [E M]]].
    destruct (match_search_bookmarks_spelling s M) as [m [post [L K]]].
    exists (lowercase pre), m, post. split; [|exact K].
    now rewrite E, lowercase_append, L.
  - intros [pre [m [post [L K]]]].
    rewrite <- isKaraKeepBookmarksPath_lowercase, L.
    apply isKaraKeepBookmarksPath_suffix.
    destruct K as [K|[K|K]]; subst m; reflexivity.
Qed.

(** ** Rescue of JSON embedded in text *)

Lemma through_last_absent (c : ascii) (s : string) :
  occurs c s = false -> through_last c s = None.
Proof.
  unfold occurs. induction s as [|a s IH]; [reflexivity|].
  cbn [string_exists through_last]. intro O.
  apply orb_false_iff in O. destruct O as [E O].
  rewrite (IH O), Ascii.eqb_sym, E. reflexivity.
Qed.

Lemma through_last_closing (c : ascii) (a post : string) :
  occurs c post = false ->
  through_last c (a ++ String c post) = Some (a ++ String c EmptyString)%string.
Proof.
  intro O. induction a as [|x a IH].
  - cbn [append through_last]. rewrite (through_last_absent c post O).
    now rewrite Ascii.eqb_refl.
  - cbn [append through_last]. now rewrite IH.
Qed.

Lemma match_span_embedded (o c : ascii) (pre mid post : string) :
  occurs o pre = false ->
  occurs c post = false ->
  match_span o c (pre ++ String o (mid ++ String c post))
  = Some (String o (mid ++ String c EmptyString)).
Proof.
  unfold occurs. intros Opre Opost.
  induction pre as [|x pre IH].
  - cbn [append match_span]. rewrite Ascii.eqb_refl.
    now rewrite (through_last_closing c mid post Opost).
  - cbn [string_exists] in Opre. apply orb_false_iff in Opre.
    destruct Opre as [E Opre].
    cbn [append match_span]. rewrite Ascii.eqb_sym, E. now apply IH.
Qed.

(** X12: an object written as JSON inside other text is rescued: when the
    text before it holds no opening brace, the text after it no closing
    brace, and the whole is not itself JSON of a container,
    [extractFirstJSONObjectFromText] returns the object. *)
Theorem extract_embedded_object (pre mid post : string) (v : value) :
  occurs "{" pre = false ->
  occurs "}" post = false ->
  JSON_parse (String "{" (mid ++ "}")) = Some v ->
  is_container v = true ->
  truthy_object (tryParseJSON (JStr (pre ++ String "{" (mid ++ String "}" post)))) = false ->
  extractFirstJSONObjectFromText (JStr (pre ++ String "{" (mid ++ String "}" post))) = v.
Proof.
  intros Opre Opost P C D.
  unfold extractFirstJSONObjectFromText. rewrite D.
  rewrite (match_span_embedded "{" "}" pre mid post Opre Opost).
  rewrite tryParseJSON_string, P, truthy_object_is_container, C. reflexivity.
Qed.

(** X12, on an answer that wraps a page in a sentence. *)
Lemma extract_embedded_object_witness :
  extractFirstJSONObjectFromText
    (JStr ("Here you go: " ++ String "{" (q "items" ++ ":[]" ++ String "}" " Bye.")))
  = JObj [("items", JArr [])].
Proof.
  apply (extract_embedded_object "Here you go: " (q "items" ++ ":[]") " Bye.");
    vm_compute; reflexivity.
Defined.

(** ** The first loop of the normaliser *)

(** Rows that carry no identifier, met while no record is open, are
    dropped. *)
Lemma coalesce_skips_unidentified (pre rest : list value) (coalesced : list props) :
  Forall (fun row => carries_identifier row = false) pre ->
  coalesce_rows (pre ++ rest) coalesced None = coalesce_rows rest coalesced None.
Proof.
  induction pre as [|row pre IH]; intro F; [reflexivity|].
  inversion F as [|? ? H F']; subst.
  cbn [app coalesce_rows]. unfold carries_identifier in H. rewrite H.
  destruct (truthy_object row); now apply IH.
Qed.

Lemma normalize_guard_object (o : props) :
  negb (truthy (JObj o)) || negb (jstype_eqb (typeof (JObj o)) TObject) = false.
Proof. reflexivity. Qed.

(** X13: the rows that come before the first row carrying [Bookmark_ID] are
    dropped without a trace: a page gives the same result with and without
    them, whatever they hold. *)
Theorem rows_before_first_record_dropped
        (pre rest : list value) (fields : props) :
  Forall (fun row => carries_identifier row = false) pre ->
  normalizeKarakeepPayload (JObj (("items", JArr (pre ++ rest)) :: fields))
  = normalizeKarakeepPayload (JObj (("items", JArr rest) :: fields)).
Proof.
  intro F. unfold normalizeKarakeepPayload.
  rewrite !normalize_guard_object.
  cbn [get get_own String.eqb Ascii.eqb Bool.eqb].
  now rewrite (coalesce_skips_unidentified pre rest [] F).
Qed.

(** X13, on a page that opens with two fragments. *)
Lemma rows_before_first_record_dropped_witness :
  normalizeKarakeepPayload
    (JObj [("items", JArr [JObj [("url", JStr "u")]; JStr "note";
                           JObj [("Bookmark_ID", JStr "1")]]);
           ("cursor", JStr "9")])
  = normalizeKarakeepPayload
      (JObj [("items", JArr [JObj [("Bookmark_ID", JStr "1")]]);
             ("cursor", JStr "9")]).
Proof.
  apply (rows_before_first_record_dropped
           [JObj [("url", JStr "u")]; JStr "note"]
           [JObj [("Bookmark_ID", JStr "1")]]
           [("cursor", JStr "9")]).
  repeat constructor.
Defined.

(** X14: a page none of whose rows carries [Bookmark_ID] normalises to an
    empty [items] list: records identified by another field are all
    dropped. *)
Theorem page_without_identifiers_is_empty (raw : value) :
  Forall (fun row => carries_identifier row = false) (rows_of raw) ->
  exists nextCursor hasMore,
    normalizeKarakeepPayload raw = page_result [] nextCursor hasMore.
Proof.
  intro F. unfold normalizeKarakeepPayload.
  destruct (negb (truthy raw) || negb (jstype_eqb (typeof raw) TObject)); [eauto|].
  fold (rows_of raw).
  rewrite <- (app_nil_r (rows_of raw)).
  rewrite (coalesce_skips_unidentified (rows_of raw) [] [] F).
  eexists _, _. reflexivity.
Qed.

(** X14, on a page whose records are identified by [id]. *)
Lemma page_without_identifiers_is_empty_witness :
  exists nextCursor hasMore,
    normalizeKarakeepPayload
      (JObj [("items", JArr [JObj [("id", JStr "abc123"); ("title", JStr "Example")]]);
             ("cursor", JStr "10")])
    = page_result [] nextCursor hasMore.
Proof.
  apply page_without_identifiers_is_empty. repeat constructor.
Defined.

(** ** What every item of a normalised page has *)

Lemma has_own_define (o : props) (k : string) (v : value) (k' : string) :
  has_own o k' = true -> has_own (define_prop o k v) k' = true.
Proof.
  unfold has_own. rewrite get_own_define.
  now destruct (String.eqb k k').
Qed.

Lemma has_own_defined (o : props) (k : string) (v : value) :
  has_own (define_prop o k v) k = true.
Proof. unfold has_own. now rewrite get_own_define, String.eqb_refl. Qed.

Lemma has_own_define_all_target (entries target : props) (k : string) :
  has_own target k = true -> has_own (define_all target entries) k = true.
Proof.
  revert target. induction entries as [|[k0 v0] l IH]; intros target H; [exact H|].
  apply (IH (define_prop target k0 v0)). now apply has_own_define.
Qed.

Lemma has_own_define_all_source (entries target : props) (k : string) :
  has_own entries k = true -> has_own (define_all target entries) k = true.
Proof.
  revert target. induction entries as [|[k0 v0] l IH]; intros target H; [discriminate H|].
  change (define_all target ((k0, v0) :: l)) with (define_all (define_prop target k0 v0) l).
  unfold has_own in H. simpl in H.
  destruct (String.eqb k0 k) eqn:E.
  - apply String.eqb_eq in E. subst k0.
    apply has_own_define_all_target. apply has_own_defined.
  - apply IH. unfold has_own. exact H.
Qed.

Lemma has_own_set_prop (o : object) (k : string) (v : value) (k' : string) :
  has_own (own o) k' = true -> has_own (own (set_prop o k v)) k' = true.
Proof.
  intro H. unfold set_prop.
  destruct (String.eqb k "__proto__" && negb (has_own (own o) k)
            && inherits_proto_accessor (proto o)).
  - destruct v; exact H.
  - now apply has_own_define.
Qed.

Lemma has_own_Object_assign (src : value) (target : object) (k : string) :
  has_own (own target) k = true -> has_own (own (Object_assign target src)) k = true.
Proof.
  unfold Object_assign. generalize (own_enumerable src) as l. intro l. revert target.
  induction l as [|[k0 v0] l IH]; intros target H; [exact H|].
  apply IH. now apply has_own_set_prop.
Qed.

(** Every record the first loop pushes owns [Bookmark_ID]. *)
Lemma coalesce_rows_own_identifier (rows : list value) :
  forall coalesced current,
    Forall owns_identifier coalesced ->
    (forall c, current = Some c -> owns_identifier (own c)) ->
    Forall owns_identifier (coalesce_rows rows coalesced current).
Proof.
  assert (P : forall coalesced current,
             Forall owns_identifier coalesced ->
             (forall c, current = Some c -> owns_identifier (own c)) ->
             Forall owns_identifier (push_current coalesced current)).
  { intros coalesced [c|] F H; [|exact F].
    apply Forall_app. split; [exact F|]. constructor; [now apply H | constructor]. }
  induction rows as [|row rows IH]; intros coalesced current F H; [now apply P|].
  cbn [coalesce_rows].
  destruct (truthy_object row && hasOwnProperty row "Bookmark_ID") eqn:C.
  - apply IH; [now apply P|].
    intros c [= <-]. cbn [own fresh]. unfold owns_identifier.
    apply andb_true_iff in C. destruct C as [_ C].
    destruct row; try discriminate C.
    rewrite spread_into_object. now apply has_own_define_all_source.
  - destruct (truthy_object row); [|now apply IH].
    destruct current as [c|]; [|now apply IH].
    apply IH; [exact F|]. intros c' [= <-].
    apply has_own_Object_assign. now apply H.
Qed.

Lemma map_set_values (P : props -> Prop) (m : id_map) (k : value) (r : props) :
  Forall P (map_values m) -> P r -> Forall P (map_values (map_set m k r)).
Proof.
  intros F Pr. induction m as [|[k0 r0] m IH]; simpl.
  - now constructor.
  - inversion F; subst. destruct (same_value_zero k0 k); simpl; constructor; auto.
Qed.

Lemma dedupe_own_identifier (l : list props) :
  forall m, Forall owns_identifier l ->
            Forall owns_identifier (map_values m) ->
            Forall owns_identifier (map_values (dedupe l m)).
Proof.
  induction l as [|it l IH]; intros m F Fm; [exact Fm|].
  inversion F as [|? ? Hit F']; subst.
  cbn [dedupe]. apply IH; [exact F'|].
  apply map_set_values; [exact Fm|].
  rewrite !spread_into_object. now apply has_own_define_all_source.
Qed.

Lemma map_set_length (m : id_map) (k : value) (r : props) :
  List.length (map_set m k r) <= S (List.length m).
Proof.
  induction m as [|[k0 r0] m IH]; simpl; [lia|].
  destruct (same_value_zero k0 k); simpl; lia.
Qed.

Lemma dedupe_length (l : list props) :
  forall m, List.length (dedupe l m) <= List.length m + List.length l.
Proof.
  induction l as [|it l IH]; intro m; [simpl; lia|].
  cbn [dedupe List.length].
  match goal with
  | |- List.length (dedupe l (map_set ?a ?b ?c)) <= _ =>
      pose proof (IH (map_set a b c)) as A;
      pose proof (map_set_length a b c) as B
  end.
  lia.
Qed.

Lemma coalesce_rows_length (rows : list value) :
  forall coalesced current,
    List.length (coalesce_rows rows coalesced current)
    = List.length (push_current coalesced current)
      + List.length (filter carries_identifier rows).
Proof.
  induction rows as [|row rows IH]; intros coalesced current; [simpl; lia|].
  cbn [coalesce_rows filter]. unfold carries_identifier at 1.
  destruct (truthy_object row && hasOwnProperty row "Bookmark_ID") eqn:C.
  - rewrite IH. cbn [push_current]. rewrite length_app. simpl. lia.
  - destruct (truthy_object row); [|apply IH].
    destruct current as [c|]; rewrite IH; cbn [push_current];
      rewrite ?length_app; reflexivity.
Qed.

(** X15: for every input, each item of the normalised page owns the field
    [Bookmark_ID]. *)
Theorem normalized_items_own_identifier (raw : value) :
  exists items nextCursor hasMore,
    normalizeKarakeepPayload raw = page_result items nextCursor hasMore
    /\ Forall owns_identifier items.
Proof.
  unfold normalizeKarakeepPayload.
  destruct (negb (truthy raw) || negb (jstype_eqb (typeof raw) TObject)).
  - exists [], JNull, false. split; [reflexivity | constructor].
  - eexists _, _, _. split; [reflexivity|].
    apply dedupe_own_identifier; [|constructor].
    apply coalesce_rows_own_identifier; [constructor | discriminate].
Qed.

(** X16: for every input, the normalised page has at most as many items as
    the input has rows carrying [Bookmark_ID]: rows without it never give
    an item of their own. *)
Theorem normalized_items_bounded (raw : value) :
  exists items nextCursor hasMore,
    normalizeKarakeepPayload raw = page_result items nextCursor hasMore
    /\ List.length items <= List.length (filter carries_identifier (rows_of raw)).
Proof.
  unfold normalizeKarakeepPayload.
  destruct (negb (truthy raw) || negb (jstype_eqb (typeof raw) TObject)).
  - exists [], JNull, false. split; [reflexivity | simpl; lia].
  - eexists _, _, _. split; [reflexivity|].
    fold (rows_of raw). unfold map_values. rewrite length_map.
    pose proof (dedupe_length (coalesce_rows (rows_of raw) [] None) []) as D.
    rewrite (coalesce_rows_length (rows_of raw) [] None) in D. simpl in D. exact D.
Qed.

(** ** Folding a fragment into the record before it *)

Lemma set_prop_plain (o : object) (k : string) (v : value) :
  String.eqb k "__proto__" = false ->
  set_prop o k v = {| own := define_prop (own o) k v; proto := proto o |}.
Proof. intro N. unfold set_prop. now rewrite N. Qed.

(** Without a [__proto__] key in the source, [Object.assign] defines the
    entries of the source on the target. *)
Lemma Object_assign_plain (entries : props) :
  has_own entries "__proto__" = false ->
  forall target,
    own (Object_assign target (JObj entries)) = define_all (own target) entries.
Proof.
  unfold Object_assign. cbn [own_enumerable].
  induction entries as [|[k v] l IH]; intros N target; [reflexivity|].
  unfold has_own in N. cbn [get_own] in N.
  destruct (String.eqb k "__proto__") eqn:E; [discriminate N|].
  cbn [fold_left fst snd]. rewrite (set_prop_plain target k v E).
  rewrite IH; [reflexivity | exact N].
Qed.

(** X17: a fragment without [Bookmark_ID] that follows a record is folded
    into it with last write wins: in the single item of the result a field
    of the fragment has the fragment's value, and a field only the record
    has keeps the record's value.  (The fragment is an object with distinct
    keys and no [__proto__] key.) *)
Theorem fragment_folds_into_record (A F : props) :
  distinct_keys A -> distinct_keys F ->
  has_own A "Bookmark_ID" = true ->
  has_own F "Bookmark_ID" = false ->
  has_own F "__proto__" = false ->
  exists M : props,
    normalizeKarakeepPayload (JObj [("items", JArr [JObj A; JObj F])])
    = page_result [M] JNull false
    /\ (forall k v, get_own F k = Some v -> get_own M k = Some v)
    /\ (forall k v, get_own A k = Some v -> get_own F k = None -> get_own M k = Some v).
Proof.
  intros DA DF HA HF NP.
  set (M1 := define_all (define_all [] A) F).
  assert (C : coalesce_rows [JObj A; JObj F] [] None = [M1]).
  { cbn [coalesce_rows truthy_object truthy typeof jstype_eqb andb hasOwnProperty].
    rewrite HA, HF. cbn [push_current app].
    rewrite (Object_assign_plain F NP). reflexivity. }
  assert (D1 : distinct_keys M1).
  { apply distinct_keys_define_all. apply distinct_keys_define_all. constructor. }
  exists (define_all [] M1). split.
  - rewrite normalize_items_only, C. reflexivity.
  - assert (R : forall k, get_own (define_all [] M1) k
                          = match get_own F k with
                            | Some v => Some v
                            | None => get_own A k
                            end).
    { intro k. rewrite (get_own_copy M1 k D1). unfold M1.
      rewrite (get_own_define_all F DF).
      destruct (get_own F k); [reflexivity|]. apply (get_own_copy A k DA). }
    split; intros k v H; rewrite R.
    + now rewrite H.
    + intro N. now rewrite N.
Qed.

(** X17, on a bookmark row followed by its description row. *)
Lemma fragment_folds_into_record_witness :
  exists M : props,
    normalizeKarakeepPayload
      (JObj [("items",
              JArr [JObj [("Bookmark_ID", JStr "7"); ("Title", JStr "T"); ("note", JStr "old")];
                    JObj [("description", JStr "d"); ("note", JStr "new")]])])
    = page_result [M] JNull false
    /\ get_own M "note" = Some (JStr "new")
    /\ get_own M "Title" = Some (JStr "T").
Proof.
  destruct (fragment_folds_into_record
              [("Bookmark_ID", JStr "7"); ("Title", JStr "T"); ("note", JStr "old")]
              [("description", JStr "d"); ("note", JStr "new")])
    as [M [E [HF HA]]].
  - unfold distinct_keys. simpl.
    repeat (constructor; [simpl; intuition discriminate|]). constructor.
  - unfold distinct_keys. simpl.
    repeat (constructor; [simpl; intuition discriminate|]). constructor.
  - reflexivity.
  - reflexivity.
  - reflexivity.
  - exists M. split; [exact E|]. split.
    + apply HF. reflexivity.
    + apply HA; reflexivity.
Defined.

(** ** An envelope whose result is wrapped JSON *)

Lemma drop_while_head (p : ascii -> bool) (s : string) :
  drop_while p s = EmptyString
  \/ exists c r, drop_while p s = String c r /\ p c = false.
Proof.
  induction s as [|c s IH]; [now left|].
  simpl. destruct (p c) eqn:E; [exact IH|]. right. now exists c, s.
Qed.

Lemma drop_while_end_head (p : ascii -> bool) (c : ascii) (r : string) :
  p c = false -> drop_while_end p (String c r) <> EmptyString.
Proof.
  intro E. simpl. destruct (drop_while_end p r); [rewrite E|]; discriminate.
Qed.

Lemma blank_is_all_space (t : string) :
  is_empty (trim t) = true -> drop_while is_space t = EmptyString.
Proof.
  unfold trim, trim_end, trim_start. intro H.
  destruct (drop_while_head is_space t) as [E|[c [r [E N]]]]; [exact E|].
  rewrite E in H. pose proof (drop_while_end_head is_space c r N) as X.
  destruct (drop_while_end is_space (String c r)); [now elim X | discriminate H].
Qed.

Lemma skip_ws_all_space (t : string) :
  drop_while is_space t = EmptyString -> drop_while is_space (skip_ws t) = EmptyString.
Proof.
  induction t as [|c t IH]; [reflexivity|].
  cbn [drop_while skip_ws]. intro H.
  destruct (is_space c) eqn:S; [|discriminate H].
  destruct (is_json_ws c); [now apply IH|].
  cbn [drop_while]. now rewrite S.
Qed.

Lemma parse_value_at_space (fuel : nat) (c : ascii) (r : string) :
  is_space c = true -> parse_value fuel (String c r) = None.
Proof.
  destruct fuel as [|f]; [reflexivity|].
  destruct c as [[] [] [] [] [] [] [] []]; intro S; try discriminate S; reflexivity.
Qed.

(** A blank text is not JSON. *)
Lemma JSON_parse_blank (t : string) :
  is_empty (trim t) = true -> JSON_parse t = None.
Proof.
  intro B. apply blank_is_all_space, skip_ws_all_space in B.
  unfold JSON_parse.
  destruct (skip_ws t) as [|c r]; [reflexivity|].
  cbn [drop_while] in B. destruct (is_space c) eqn:S; [|discriminate B].
  now rewrite (parse_value_at_space _ c r S).
Qed.

Lemma wrapped_not_blank (k : nat) (t : string) (v : value) :
  JSON_parse t = Some v -> is_empty (trim (wrapped k t)) = false.
Proof.
  intro P.
  destruct (is_empty (trim (wrapped k t))) eqn:B; [|reflexivity].
  apply JSON_parse_blank in B.
  destruct k as [|k]; simpl in B.
  - rewrite P in B. discriminate B.
  - rewrite JSON_parse_stringify_string in B. discriminate B.
Qed.

(** X18: an envelope whose [result] is the JSON text of a container,
    wrapped as a JSON string up to depth 5, is answered by
    [parseToolResponse] with that container, whatever its [sources]
    hold. *)
Theorem envelope_result_unwrapped (o : props) (t : string) (v : value) (depth : nat) :
  get (JObj o) "result" = JStr (encoded depth t) ->
  1 <= depth <= 5 ->
  JSON_parse t = Some v ->
  is_container v = true ->
  parseToolResponse (JObj o) = Normal v.
Proof.
  intros R D P C. unfold parseToolResponse.
  cbn [is_nullish typeof jstype_eqb]. rewrite R.
  unfold try_result. cbn [is_nullish ToString bind].
  unfold encoded. rewrite (wrapped_not_blank (depth - 1) t v P).
  unfold unwrap_then_rescue, unwrapDeepJSONString, maxDepth_default.
  destruct (unwrap_loop_wrapped v t P C 5 (depth - 1)) as [U _].
  rewrite U by lia. cbn [parsed].
  rewrite truthy_object_is_container, C. reflexivity.
Qed.

(** X18, on the envelope of Example 2 with its result wrapped once more. *)
Lemma envelope_result_unwrapped_witness :
  parseToolResponse
    (JObj [("result", JStr (JSON_stringify_string inner_text));
           ("sources", JArr [JObj [("document", JStr empty_page_text)]])])
  = Normal inner_payload.
Proof.
  apply (envelope_result_unwrapped _ inner_text inner_payload 2).
  - reflexivity.
  - lia.
  - vm_compute. reflexivity.
  - reflexivity.
Defined.

(** ** The routes that are registered *)

Lemma register_methods_spec (path : string) (methods : list string) :
  forall router r,
    In r (register_methods path methods router)
    <-> In r router
        \/ (route_path r = path
            /\ exists m, In m methods /\ toLowerCase m = method r
                         /\ supported_method (method r) = true).
Proof.
  induction methods as [|m ms IH]; intros router r; cbn [register_methods].
  - split; [now left | intros [H|[_ [m [[] _]]]]; exact H].
  - destruct (supported_method (toLowerCase m)) eqn:S; cbn [negb]; rewrite IH.
    + rewrite in_app_iff. simpl. split.
      * intros [[H|[H|[]]]|[E [m' [I X]]]].
        -- now left.
        -- right. subst r. simpl. split; [reflexivity|].
           exists m. split; [now left|]. split; [reflexivity | exact S].
        -- right. split; [exact E|]. exists m'. split; [now right | exact X].
      * intros [H|[E [m' [[->|I] [L X]]]]].
        -- left. now left.
        -- left. right. left. destruct r as [rm rp]. simpl in *. now subst.
        -- right. split; [exact E|]. now exists m'.
    + split.
      * intros [H|[E [m' [I X]]]]; [now left|].
        right. split; [exact E|]. exists m'. split; [now right | exact X].
      * intros [H|[E [m' [[->|I] [L X]]]]]; [now left | |].
        -- rewrite L, X in S. discriminate S.
        -- right. split; [exact E|]. now exists m'.
Qed.

Lemma register_paths_spec (entries : props) :
  forall router routes,
    register_paths entries router = Normal routes ->
    forall r,
      In r routes
      <-> In r router
          \/ exists pathObj keys m,
               In (route_path r, pathObj) entries
               /\ Object_keys pathObj = Normal keys
               /\ In m keys /\ toLowerCase m = method r
               /\ supported_method (method r) = true.
Proof.
  induction entries as [|[path pathObj] entries IH]; intros router routes H r.
  - injection H as <-. split; [now left|].
    intros [I|[po [ks [m [[] _]]]]]. exact I.
  - cbn [register_paths] in H.
    destruct (Object_keys pathObj) as [keys|e] eqn:K; [|discriminate H].
    cbn [bind] in H. rewrite (IH _ _ H r), register_methods_spec. split.
    + intros [[I|[E [m X]]]|[po [ks [m [I X]]]]].
      * now left.
      * right. exists pathObj, keys, m. split; [left; now rewrite E|].
        split; [exact K | exact X].
      * right. exists po, ks, m. split; [now right | exact X].
    + intros [I|[po [ks [m [[E|I] [Kp X]]]]]].
      * left. now left.
      * injection E as E1 E2. subst po. rewrite K in Kp. injection Kp as <-.
        left. right. split; [now symmetry|]. now exists m.
      * right. exists po, ks, m. split; [exact I|]. split; [exact Kp | exact X].
Qed.

(** X19: when [buildRouterFromOpenAPI] returns, it has registered a route
    for a method and a path exactly when the path item of that path has a
    key spelling [post] or [get] in some letter case; the method is
    registered in lower case, and every other verb of the description is
    skipped. *)
Theorem registered_routes (spec : value) (routes : list route) :
  buildRouterFromOpenAPI spec = Normal routes ->
  Forall (fun r => method r = "post" \/ method r = "get") routes
  /\ forall lower path,
       In {| method := lower; route_path := path |} routes
       <-> declares (get spec "paths") path lower.
Proof.
  unfold buildRouterFromOpenAPI.
  destruct (negb (truthy spec) || negb (truthy (get spec "paths"))
            || negb (jstype_eqb (typeof (get spec "paths")) TObject)); [discriminate|].
  intro H.
  assert (S : forall r, In r routes
                        <-> declares (get spec "paths") (route_path r) (method r)).
  { intro r. rewrite (register_paths_spec _ _ _ H r). unfold declares. split.
    - intros [[]|X]. exact X.
    - intro X. now right. }
  split.
  - apply Forall_forall. intros r I. apply S in I.
    destruct I as [po [ks [m [_ [_ [_ [_ X]]]]]]].
    unfold supported_method in X. apply orb_true_iff in X.
    destruct X as [X|X]; apply String.eqb_eq in X; auto.
  - intros lower path. apply (S {| method := lower; route_path := path |}).
Qed.

(** X19, on a description with four verbs on two paths: two routes. *)
Lemma registered_routes_witness :
  buildRouterFromOpenAPI sample_spec
  = Normal [{| method := "get"; route_path := "/search-bookmarks" |};
            {| method := "post"; route_path := "/search-bookmarks" |}]
  /\ declares (get sample_spec "paths") "/search-bookmarks" "post"
  /\ ~ declares (get sample_spec "paths") "/lists" "get".
Proof.
  assert (B : buildRouterFromOpenAPI sample_spec
              = Normal [{| method := "get"; route_path := "/search-bookmarks" |};
                        {| method := "post"; route_path := "/search-bookmarks" |}])
    by (vm_compute; reflexivity).
  destruct (registered_routes sample_spec _ B) as [_ R].
  split; [exact B|]. split.
  - apply R. right. now left.
  - intro D. apply R in D. simpl in D.
    destruct D as [D|[D|[]]]; discriminate D.
Defined.

Lemma register_paths_null_item (entries : props) (path : string) :
  In (path, JNull) entries ->
  forall router, exists e,
    register_paths entries router = Throw e /\ err_name e = "TypeError".
Proof.
  induction entries as [|[p po] entries IH]; intros I router; [destruct I|].
  cbn [register_paths].
  destruct (Object_keys po) as [keys|e] eqn:K.
  - cbn [bind]. destruct I as [E|I]; [|now apply IH].
    injection E as _ ->. discriminate K.
  - exists e. split; [reflexivity|].
    destruct po; try discriminate K; simpl in K; now injection K as <-.
Qed.

(** X20: a description in which some path has the value [null] makes
    [buildRouterFromOpenAPI] raise a TypeError: the path is not skipped and
    no router is returned. *)
Theorem null_path_item_raises (spec : value) (paths : props) (path : string) :
  get spec "paths" = JObj paths ->
  In (path, JNull) paths ->
  exists e, buildRouterFromOpenAPI spec = Throw e /\ err_name e = "TypeError".
Proof.
  intros P I. unfold buildRouterFromOpenAPI. rewrite P.
  assert (T : truthy spec = true).
  { destruct spec; try discriminate P; reflexivity. }
  rewrite T. cbn [negb orb truthy typeof jstype_eqb own_enumerable].
  now apply (register_paths_null_item paths path).
Qed.

(** X20, on a description whose second path is [null]. *)
Lemma null_path_item_raises_witness :
  exists e,
    buildRouterFromOpenAPI
      (JObj [("paths", JObj [("/a", JObj [("get", JObj [])]); ("/b", JNull)])])
    = Throw e /\ err_name e = "TypeError".
Proof.
  apply (null_path_item_raises _ [("/a", JObj [("get", JObj [])]); ("/b", JNull)] "/b").
  - reflexivity.
  - right. now left.
Defined.

(** X21: [buildRouterFromOpenAPI] raises its no-paths error exactly when
    [spec.paths] is neither an object nor an array; this covers a missing or
    [null] description and a description without [paths]. *)
Theorem no_paths_error_iff (spec : value) :
  buildRouterFromOpenAPI spec = Throw no_paths_error
  <-> truthy_object (get spec "paths") = false.
Proof.
  unfold buildRouterFromOpenAPI, truthy_object.
  destruct (truthy spec) eqn:T.
  - cbn [negb orb].
    destruct (truthy (get spec "paths")); cbn [negb orb andb];
      [|split; reflexivity].
    destruct (jstype_eqb (typeof (get spec "paths")) TObject); cbn [negb];
      [|split; reflexivity].
    split; [|discriminate]. intro H. exfalso.
    assert (G : forall entries router,
               register_paths entries router <> Throw no_paths_error).
    { induction entries as [|[p po] entries IH]; intros router E; [discriminate E|].
      cbn [register_paths] in E.
      destruct (Object_keys po) as [keys|e] eqn:K; cbn [bind] in E.
      - exact (IH _ E).
      - destruct po; try discriminate K; simpl in K; injection K as <-;
          discriminate E. }
    exact (G _ _ H).
  - assert (U : get spec "paths" = JUndefined).
    { destruct spec; try reflexivity. discriminate T. }
    rewrite U. split; reflexivity.
Qed.

(** ** Loading the API description *)

Lemma fetch_once_loads (st : state) (up : upstream) (spec : value) :
  loads up spec -> fetchOpenAPIOnce st up = (ready_with spec, Normal spec).
Proof.
  intros [status [txt [msg [-> [O [P M]]]]]].
  unfold fetchOpenAPIOnce, load_attempt. rewrite O, P, M. reflexivity.
Qed.

Lemma fetch_once_fails (st : state) (up : upstream) :
  fails up ->
  exists st' e, fetchOpenAPIOnce st up = (st', Throw e) /\ openapiLoaded st' = false.
Proof.
  intro F. unfold fetchOpenAPIOnce, load_attempt.
  destruct up as [status txt|e]; [|eexists _, _; split; reflexivity].
  destruct (response_ok status) eqn:O; cbn [negb];
    [|eexists _, _; split; reflexivity].
  destruct (JSON_parse txt) as [spec|] eqn:P; [|eexists _, _; split; reflexivity].
  destruct (loaded_message spec) as [msg|e] eqn:M; [|eexists _, _; split; reflexivity].
  exfalso. apply (F spec). now exists status, txt, msg.
Qed.

(** The loop goes through the failing attempts and returns at the first one
    that loads. *)
Lemma retry_first_success (failures : list upstream) (good : upstream)
      (rest : list upstream) (spec : value) :
  Forall fails failures -> loads good spec ->
  forall st,
    fetchOpenAPIWithRetry st (failures ++ good :: rest) = (ready_with spec, Some spec).
Proof.
  intros F L. induction failures as [|up failures IH]; intro st.
  - cbn [app fetchOpenAPIWithRetry]. now rewrite (fetch_once_loads st good spec L).
  - inversion F as [|? ? Fu F']; subst.
    cbn [app fetchOpenAPIWithRetry].
    destruct (fetch_once_fails st up Fu) as [st' [e [E _]]]. rewrite E.
    now apply IH.
Qed.

(** X22: [fetchOpenAPIWithRetry] returns the description of the first
    attempt that loads, however many attempts failed before it and whatever
    would come after; it caches that description, and from then on
    [healthHandler] answers 200 ok. *)
Theorem retry_returns_first_success (failures : list upstream) (good : upstream)
        (rest : list upstream) (spec : value) (st : state) :
  Forall fails failures -> loads good spec ->
  exists st',
    fetchOpenAPIWithRetry st (failures ++ good :: rest) = (st', Some spec)
    /\ getCachedOpenAPI st' = spec
    /\ healthHandler (openapiLoaded st') = ok_response.
Proof.
  intros F L. exists (ready_with spec).
  split; [now apply retry_first_success|]. split; reflexivity.
Qed.

(** X22, on a refused connection, a 503 and then the description. *)
Lemma retry_returns_first_success_witness :
  exists st',
    fetchOpenAPIWithRetry initial
      [Rejected (Err "FetchError" "connect ECONNREFUSED");
       Responded 503 "Service Unavailable";
       Responded 200 pathless_text;
       Responded 500 "late failure"]
    = (st', Some pathless_spec)
    /\ getCachedOpenAPI st' = pathless_spec
    /\ healthHandler (openapiLoaded st') = ok_response.
Proof.
  apply (retry_returns_first_success
           [Rejected (Err "FetchError" "connect ECONNREFUSED");
            Responded 503 "Service Unavailable"]
           (Responded 200 pathless_text)
           [Responded 500 "late failure"] pathless_spec initial).
  - constructor; [|constructor; [|constructor]].
    + intros spec [status [txt [msg [E _]]]]. discriminate E.
    + intros spec [status [txt [msg [E [O _]]]]]. injection E as <- <-.
      discriminate O.
  - exists 200%Z, pathless_text, "OpenAPI loaded: unknown v?".
    repeat split; vm_compute; reflexivity.
Defined.

(** X23: as long as every attempt fails the loop returns nothing and
    [healthHandler] answers 503 starting. *)
Theorem retry_keeps_starting (attempts : list upstream) :
  Forall fails attempts ->
  exists st',
    fetchOpenAPIWithRetry initial attempts = (st', None)
    /\ healthHandler (openapiLoaded st') = starting_response.
Proof.
  intro F.
  assert (G : forall st, openapiLoaded st = false ->
                         exists st', fetchOpenAPIWithRetry st attempts = (st', None)
                                     /\ openapiLoaded st' = false).
  { induction attempts as [|up attempts IH]; intros st H.
    - exists st. now split.
    - inversion F as [|? ? Fu F']; subst.
      cbn [fetchOpenAPIWithRetry].
      destruct (fetch_once_fails st up Fu) as [st1 [e [E H1]]]. rewrite E.
      now apply IH. }
  destruct (G initial eq_refl) as [st' [E H]].
  exists st'. split; [exact E|]. now rewrite H.
Qed.

(** X23, on three failed attempts: a refusal, a 404 and a body that is not
    JSON. *)
Lemma retry_keeps_starting_witness :
  exists st',
    fetchOpenAPIWithRetry initial
      [Rejected (Err "FetchError" "connect ECONNREFUSED");
       Responded 404 "{}";
       Responded 200 "<html>"]
    = (st', None)
    /\ healthHandler (openapiLoaded st') = starting_response.
Proof.
  apply retry_keeps_starting.
  constructor; [|constructor; [|constructor; [|constructor]]].
  - intros spec [status [txt [msg [E _]]]]. discriminate E.
  - intros spec [status [txt [msg [E [O _]]]]]. injection E as <- <-. discriminate O.
  - intros spec [status [txt [msg [E [_ [P _]]]]]]. injection E as <- <-.
    vm_compute in P. discriminate P.
Defined.

(** X24: a failing attempt of [fetchOpenAPIOnce] raises and leaves the
    service marked as not loaded, also when it was loaded before: the next
    [healthHandler] answers 503 starting. *)
Theorem failed_fetch_resets_health (st : state) (up : upstream) :
  fails up ->
  exists st' e,
    fetchOpenAPIOnce st up = (st', Throw e)
    /\ healthHandler (openapiLoaded st') = starting_response.
Proof.
  intro F. destruct (fetch_once_fails st up F) as [st' [e [E H]]].
  exists st', e. split; [exact E|]. now rewrite H.
Qed.

(** X24, on a service that was ready and a refresh answered with 500. *)
Lemma failed_fetch_resets_health_witness :
  exists st' e,
    fetchOpenAPIOnce (ready_with sample_spec) (Responded 500 "Internal Server Error")
    = (st', Throw e)
    /\ healthHandler (openapiLoaded st') = starting_response.
Proof.
  apply failed_fetch_resets_health.
  intros spec [status [txt [msg [E [O _]]]]]. injection E as <- <-. discriminate O.
Defined.

(** ** The start-up *)

Lemma fetch_once_normal (st st1 : state) (up : upstream) (spec : value) :
  fetchOpenAPIOnce st up = (st1, Normal spec) -> st1 = ready_with spec.
Proof.
  unfold fetchOpenAPIOnce, load_attempt.
  destruct up as [status txt|e]; [|discriminate].
  destruct (negb (response_ok status)); [discriminate|].
  destruct (JSON_parse txt) as [v|]; [|discriminate].
  destruct (loaded_message v); [|discriminate].
  intro E. injection E as <- <-. reflexivity.
Qed.

(** When the loop returns, the description it returns is the cached one and
    the service is marked as loaded. *)
Lemma retry_returns_ready (attempts : list upstream) :
  forall (st st1 : state) (spec : value),
    fetchOpenAPIWithRetry st attempts = (st1, Some spec) -> st1 = ready_with spec.
Proof.
  induction attempts as [|up attempts IH]; intros st st1 spec; [discriminate|].
  cbn [fetchOpenAPIWithRetry].
  destruct (fetchOpenAPIOnce st up) as [st2 [v|e]] eqn:E.
  - intro H. injection H as <- <-. exact (fetch_once_normal st st2 up v E).
  - apply IH.
Qed.

(** X25: a description that loads but has no [paths] object makes the
    start-up function raise in [buildRouterFromOpenAPI], after the load has
    marked the service as loaded and before [app.listen]: the start-up ends
    with the no-paths error and the server never listens. *)
Theorem startup_exits_without_paths (failures : list upstream) (good : upstream)
        (rest : list upstream) (spec : value) :
  Forall fails failures -> loads good spec ->
  truthy_object (get spec "paths") = false ->
  openapiLoaded (fst (fetchOpenAPIWithRetry initial (failures ++ good :: rest))) = true
  /\ startup (failures ++ good :: rest) = Exited no_paths_error.
Proof.
  intros F L P.
  unfold startup. rewrite (retry_first_success failures good rest spec F L).
  split; [reflexivity|].
  replace (buildRouterFromOpenAPI spec) with (@Throw (list route) no_paths_error);
    [reflexivity|].
  unfold buildRouterFromOpenAPI, truthy_object in *.
  destruct (truthy spec); [|reflexivity]. cbn [negb orb].
  destruct (truthy (get spec "paths")); [|reflexivity]. cbn [negb orb andb] in *.
  now rewrite P.
Qed.

(** X25, on a description that holds only a version. *)
Lemma startup_exits_without_paths_witness :
  openapiLoaded (fst (fetchOpenAPIWithRetry initial [Responded 200 pathless_text])) = true
  /\ startup [Responded 200 pathless_text] = Exited no_paths_error.
Proof.
  apply (startup_exits_without_paths [] (Responded 200 pathless_text) [] pathless_spec).
  - constructor.
  - exists 200%Z, pathless_text, "OpenAPI loaded: unknown v?".
    repeat split; vm_compute; reflexivity.
  - reflexivity.
Defined.

(** X26: when the start-up reaches [app.listen], the routes it has mounted
    are the ones built from the cached description, and the service is
    marked as loaded: [healthHandler] answers 200 ok from the first request
    on. *)
Theorem startup_listens_ready (attempts : list upstream) (st : state) (routes : list route) :
  startup attempts = Listening st routes ->
  buildRouterFromOpenAPI (getCachedOpenAPI st) = Normal routes
  /\ healthHandler (openapiLoaded st) = ok_response.
Proof.
  unfold startup.
  destruct (fetchOpenAPIWithRetry initial attempts) as [st1 [spec|]] eqn:E;
    [|discriminate].
  apply retry_returns_ready in E. subst st1.
  destruct (buildRouterFromOpenAPI spec) as [r|e] eqn:B; [|discriminate].
  intro H. injection H as <- <-. split; [exact B | reflexivity].
Qed.

(** X26, on a 503 followed by a description with one route. *)
Lemma startup_listens_ready_witness :
  buildRouterFromOpenAPI (getCachedOpenAPI (ready_with one_route_spec))
  = Normal [{| method := "post"; route_path := "/search" |}]
  /\ healthHandler (openapiLoaded (ready_with one_route_spec)) = ok_response.
Proof.
  apply (startup_listens_ready
           [Responded 503 "Service Unavailable"; Responded 200 one_route_text]).
  vm_compute. reflexivity.
Defined.

(** ** The candidates of [parseToolResponse] *)


















(** ** Two fragments of one record, anywhere in a page *)




















